(** * Open-Catalyst-Dataset, Pourbaix utilities: a shallow embedding

    Two Python modules are embedded here:

    - [pourbaix/download_data/get_entries_utils.py]: paginated queries to the
      OQMD REST interface, conversion of an OQMD phase record into an ASE atoms
      object, and the writer of the ASE database ([Module GetEntriesUtils]);
    - [pourbaix/mprester_ocp.py]: the assembly of Pourbaix entries from the
      Materials Project ion reference data ([Module MpresterOcp]).

    The scientific libraries the code calls (pymatgen, ASE, qmpy_rester) are
    interfaces of the embedding: type classes whose operations are the library
    calls that appear in the source.  Python's own behaviour that the code
    relies on (name resolution, string splitting, list indexing, exceptions)
    is written out in [Module Py]. *)

From Stdlib Require Import ZArith QArith String Ascii.
From stdpp Require Import base gmap sets list strings pretty.

Local Open Scope string_scope.
Local Open Scope list_scope.
Local Open Scope Z_scope.

(** ** Python values, exceptions and helpers *)

Module Py.

(** The exceptions the two modules can raise in their own code. *)
Inductive exn : Type :=
| ValueError (msg : string)
| NameError (name : string)
| KeyError (key : string)
| IndexError
| AttributeError (attr : string)
| ZeroDivisionError.

(** The outcome of running a piece of Python code. *)
Inductive result (A : Type) : Type :=
| Ok (a : A)
| Raise (e : exn).
Arguments Ok {A} a.
Arguments Raise {A} e.

Definition is_ok {A} (r : result A) : bool :=
  match r with Ok _ => true | Raise _ => false end.

#[export] Instance result_ret : MRet result := λ A a, Ok a.
#[export] Instance result_bind : MBind result := λ A B f m,
  match m with
  | Ok a => f a
  | Raise e => Raise e
  end.

(** A list comprehension [[f(x) for x in l]] whose element expression may
    raise: elements are evaluated left to right and the first exception
    ends the evaluation. *)
Fixpoint comprehension {A B} (f : A → result B) (l : list A) : result (list B) :=
  match l with
  | [] => Ok []
  | x :: l' =>
      match f x with
      | Ok y =>
          match comprehension f l' with
          | Ok ys => Ok (y :: ys)
          | Raise e => Raise e
          end
      | Raise e => Raise e
      end
  end.

(** [s.split(sep)] for a one-character separator: every occurrence of the
    separator ends a token, so consecutive separators give empty tokens and
    the result is never the empty list. *)
Fixpoint split (sep : ascii) (s : string) : list string :=
  match s with
  | EmptyString => [EmptyString]
  | String c s' =>
      if Ascii.eqb c sep then EmptyString :: split sep s'
      else match split sep s' with
           | [] => [String c EmptyString]
           | t :: ts => String c t :: ts
           end
  end.

(** [c in s] for a character [c]. *)
Fixpoint contains (c : ascii) (s : string) : bool :=
  match s with
  | EmptyString => false
  | String c' s' => Ascii.eqb c' c || contains c s'
  end.

(** [sep.join(l)]. *)
Fixpoint join (sep : string) (l : list string) : string :=
  match l with
  | [] => ""
  | x :: l' =>
      match l' with
      | [] => x
      | _ :: _ => x +:+ sep +:+ join sep l'
      end
  end.

(** [l[i]] for a non-negative index. *)
Definition getitem {A} (l : list A) (i : nat) : result A :=
  match l !! i with
  | Some x => Ok x
  | None => Raise IndexError
  end.

(** Truth value of an optional string ([None] and [""] are false). *)
Definition truthy (o : option string) : bool :=
  match o with
  | None => false
  | Some s => negb (String.eqb s "")
  end.

(** Python floats, as far as the code uses them: the arithmetic of
    [mprester_ocp.py], the comparison [sorted] uses, and the conversion
    [float(s)], which raises [ValueError] on a string that is no number. *)
Class PyFloat := {
  pyfloat : Type;
  fadd : pyfloat → pyfloat → pyfloat;
  fsub : pyfloat → pyfloat → pyfloat;
  fmul : pyfloat → pyfloat → pyfloat;
  fdiv : pyfloat → pyfloat → option pyfloat;
  flt : pyfloat → pyfloat → bool;
  float_of_str : string → option pyfloat;
}.

(** [float(s)]. *)
Definition float `{PyFloat} (s : string) : result pyfloat :=
  match float_of_str s with
  | Some x => Ok x
  | None => Raise (ValueError ("could not convert string to float: " +:+ s))
  end.

(** [x / y]. *)
Definition truediv `{PyFloat} (x y : pyfloat) : result pyfloat :=
  match fdiv x y with
  | Some q => Ok q
  | None => Raise ZeroDivisionError
  end.

(** The comparison [<] is a strict weak order, as it is on floats that are
    not NaN. *)
Class FloatOrder `{PyFloat} : Prop := {
  flt_asym x y : flt x y = true → flt y x = false;
  flt_negtrans x y z : flt x y = false → flt y z = false → flt x z = false;
}.

(** [sorted(l, key=key)]: keys are compared with [<] only and elements with
    equal keys keep their order.  Written as a stable insertion sort; when
    [<] is a strict weak order on the keys every stable sort returns this
    list. *)
Section Sorted.
Context `{PyFloat} {A : Type} (key : A → pyfloat).

Fixpoint insert_sorted (x : A) (l : list A) : list A :=
  match l with
  | [] => [x]
  | y :: l' =>
      if flt (key y) (key x) then y :: insert_sorted x l'
      else x :: y :: l'
  end.

Definition sorted (l : list A) : list A := foldr insert_sorted [] l.
End Sorted.

End Py.

(** ** [pourbaix/download_data/get_entries_utils.py] *)

Module GetEntriesUtils.
Import Py.

Section Model.
Context `{PyFloat}.

(** [pymatgen.core.structure.Lattice] and [Structure], and the ASE atoms
    object [AseAtomsAdaptor.get_atoms] makes of a structure. *)
Record Lattice := mkLattice { matrix : list (list pyfloat) }.

Record Structure := mkStructure {
  lattice : Lattice;
  species : list string;
  coords : list (list pyfloat);
}.

Record Atoms := get_atoms { atoms_structure : Structure }.

(** An OQMD phase record.  The keys the code reads are fields; the two
    keys [get_ase_object] adds are absent ([None]) in a record as it comes
    from the server. *)
Record Entry := mkEntry {
  unit_cell : list (list pyfloat);
  sites : list string;
  entry_id : Z;
  delta_e : pyfloat;
  atoms_obj : option Atoms;
  pmg_struct : option Structure;
}.

(** *** The REST interface *)

Inductive KwVal := KwInt (z : Z) | KwStr (s : string).

(** The keyword arguments of a query, in the order of the dict literal. *)
Definition Kwargs := list (string * KwVal).

(** A page: [data["data"]] and [data["links"]["next"]]. *)
Record Response := mkResponse {
  resp_data : list Entry;
  links_next : option string;
}.

(** [maximum_pages]: an integer, or [np.inf] (the default). *)
Inductive MaxPages := Pages (m : Z) | Inf.

Definition le_max_pages (batch_num : Z) (maximum_pages : MaxPages) : bool :=
  match maximum_pages with
  | Pages m => batch_num <=? m
  | Inf => true
  end.

(** The server: what [QMPYRester.get_oqmd_phases] answers to the [n]-th
    query of a run (counted from 0), given its keyword arguments. *)
Class QMPYRester := { oqmd_phases : nat → Kwargs → Response }.

(** The queries issued so far, oldest first. *)
Definition Log := list Kwargs.

Definition get_oqmd_phases `{QMPYRester} (kwargs : Kwargs) (log : Log)
  : Response * Log :=
  (oqmd_phases (length log) kwargs, log ++ [kwargs]).

(** *** [get_all_entries] *)

Definition all_entries_kwargs (page_limit batch_num : Z) : Kwargs :=
  [ ("limit", KwInt page_limit);
    ("offset", KwInt (batch_num * page_limit));
    ("filter", KwStr "stability <= 0.1 AND delta_e <= 0 AND ntypes < 4") ].

(** The [while continue_bool] loop.  [fuel] bounds the number of
    iterations; [None] is a loop that was still running when the fuel
    ran out.  The log is returned in either case. *)
Fixpoint get_all_entries_loop `{QMPYRester} (fuel : nat)
    (maximum_pages : MaxPages) (page_limit : Z)
    (continue_bool : bool) (batch_num : Z) (cumulative_data : list Entry)
    (log : Log) : option (list Entry) * Log :=
  if continue_bool then
    match fuel with
    | O => (None, log)
    | S fuel' =>
        let kwargs := all_entries_kwargs page_limit batch_num in
        let '(data, log) := get_oqmd_phases kwargs log in
        let cumulative_data := cumulative_data ++ resp_data data in
        let batch_num := batch_num + 1 in
        let continue_bool :=
          if truthy (links_next data) && le_max_pages batch_num maximum_pages
          then true else false in
        get_all_entries_loop fuel' maximum_pages page_limit
          continue_bool batch_num cumulative_data log
    end
  else (Some cumulative_data, log).

Definition get_all_entries `{QMPYRester} (fuel : nat)
    (maximum_pages : MaxPages) (page_limit : Z) (log : Log)
  : option (list Entry) * Log :=
  let continue_bool := true in
  let batch_num := 0 in
  let cumulative_data := [] in
  get_all_entries_loop fuel maximum_pages page_limit
    continue_bool batch_num cumulative_data log.

(** *** [get_icsd_entries] *)

Definition icsd_entries_kwargs (page_limit batch_num : Z) : Kwargs :=
  [ ("limit", KwInt page_limit);
    ("offset", KwInt (batch_num * page_limit));
    ("icsd", KwStr "T") ].

(** The body is straight-line code: there is no loop around the query. *)
Definition get_icsd_entries `{QMPYRester}
    (maximum_pages : MaxPages) (page_limit : Z) (log : Log)
  : list Entry * Log :=
  let continue_bool := true in
  let batch_num := 0 in
  let cumulative_data := [] in
  let kwargs := icsd_entries_kwargs page_limit batch_num in
  let '(data, log) := get_oqmd_phases kwargs log in
  let cumulative_data := cumulative_data ++ resp_data data in
  let batch_num := batch_num + 1 in
  let continue_bool :=
    if truthy (links_next data) && le_max_pages batch_num maximum_pages
    then true else false in
  (cumulative_data, log).

(** *** [get_ase_object] *)

(** One iteration of [for atom_info in entry["sites"]]: the element and
    the coordinates the iteration appends. *)
Definition site_info (atom_info : string) : result (string * list pyfloat) :=
  let info := split " " atom_info in
  elem ← getitem info 0;
  xs ← comprehension float (drop 2 info);
  mret (elem, xs).

Fixpoint sites_loop (l : list string) (elems : list string)
    (coords : list (list pyfloat))
  : result (list string * list (list pyfloat)) :=
  match l with
  | [] => Ok (elems, coords)
  | atom_info :: l' =>
      '(elem, xs) ← site_info atom_info;
      sites_loop l' (elems ++ [elem]) (coords ++ [xs])
  end.

(** [entry["atoms_obj"] = a] and [entry["pmg_struct"] = s]. *)
Definition set_atoms_obj (a : Atoms) (entry : Entry) : Entry :=
  {| unit_cell := unit_cell entry; sites := sites entry;
     entry_id := entry_id entry; delta_e := delta_e entry;
     atoms_obj := Some a; pmg_struct := pmg_struct entry |}.

Definition set_pmg_struct (s : Structure) (entry : Entry) : Entry :=
  {| unit_cell := unit_cell entry; sites := sites entry;
     entry_id := entry_id entry; delta_e := delta_e entry;
     atoms_obj := atoms_obj entry; pmg_struct := Some s |}.

(** Returns the atoms object and the entry as the call leaves it. *)
Definition get_ase_object (entry : Entry) : result (Atoms * Entry) :=
  let cell := unit_cell entry in
  '(elems, coords) ← sites_loop (sites entry) [] [];
  let lattice := mkLattice cell in
  let s := mkStructure lattice elems coords in
  let atoms_obj := get_atoms s in
  let entry := set_atoms_obj atoms_obj entry in
  let entry := set_pmg_struct s entry in
  mret (atoms_obj, entry).

(** *** [write_data] *)

(** A row of the ASE database: the atoms and the key-value pairs. *)
Record Row := mkRow {
  row_atoms : Atoms;
  row_source : string;
  row_bulk_id : string;
  row_formation_energy : pyfloat;
}.

(** The databases on disk, by path; [connect] creates a missing one. *)
Definition Disk := gmap string (list Row).

Definition connect (path : string) (disk : Disk) : list Row :=
  default [] (disk !! path).

(** The [for entry in entries] loop over the open database.  It returns
    the rows of the database and the entries as the loop leaves them. *)
Fixpoint write_loop (entries : list Entry) (db : list Row)
  : result (list Row * list Entry) :=
  match entries with
  | [] => Ok (db, [])
  | entry :: entries' =>
      '(atoms, entry) ← get_ase_object entry;
      let oqmd_id := "oqmd-" +:+ pretty (entry_id entry) in
      let db := db ++ [mkRow atoms "oqmd" oqmd_id (delta_e entry)] in
      '(db, done) ← write_loop entries' db;
      mret (db, entry :: done)
  end.

Definition write_data (entries : list Entry) (path : string) (disk : Disk)
  : result (Disk * list Entry) :=
  let db := connect path disk in
  '(db, entries) ← write_loop entries db;
  mret (<[path := db]> disk, entries).

End Model.

Arguments Lattice {_}.
Arguments Structure {_}.
Arguments Atoms {_}.
Arguments Entry {_}.
Arguments Response {_}.
Arguments QMPYRester {_}.
Arguments Row {_}.
Arguments Disk {_}.

End GetEntriesUtils.

(** ** [pourbaix/mprester_ocp.py] *)

Module MpresterOcp.
Import Py.

(** [pymatgen.core.periodic_table.Element], by its symbol: [Element(s)] and
    [str(e)] are the identity. *)
Definition Element := string.

(** The names the module binds at its top level: the imports of lines 1-11
    and the class it defines. *)
Definition module_globals : gset string :=
  list_to_set
    [ "MPRester"; "Composition"; "PhaseDiagram"; "IonEntry"; "PourbaixEntry";
      "Ion"; "Compatibility"; "MaterialsProject2020Compatibility";
      "MaterialsProjectAqueousCompatibility"; "MaterialsProjectCompatibility";
      "MPRester_x_OCP" ].

Section Model.
Context `{PyFloat}.

(** The pymatgen objects the method handles.  Their classes are opaque;
    the operations of [Pymatgen] below are the calls the source makes. *)
Context {Composition Ion Compatibility : Type}.

(** [pymatgen.entries.computed_entries.ComputedEntry]. *)
Record ComputedEntry := mkComputedEntry {
  composition : Composition;
  energy : pyfloat;
  entry_id : string;
  data : gmap string pyfloat;
}.

(** [ComputedEntry(composition, energy, entry_id=entry_id)]. *)
Definition ComputedEntry_new (c : Composition) (e : pyfloat) (id : string)
  : ComputedEntry := mkComputedEntry c e id ∅.

Record PhaseDiagram := mkPhaseDiagram { pd_entries : list ComputedEntry }.

Record MaterialsProjectAqueousCompatibility :=
  mkAqueousCompatibility { solid_compat_of : Compatibility }.

Record IonEntry := mkIonEntry { ion : Ion; ion_energy : pyfloat }.

(** [PourbaixEntry(entry, entry_id=None)] wraps an ion entry or a solid
    entry. *)
Inductive PourbaixInner :=
| OfIon (e : IonEntry)
| OfSolid (e : ComputedEntry).

Record PourbaixEntry := mkPourbaixEntry {
  pbx_entry : PourbaixInner;
  pbx_entry_id : option string;
}.

Class Pymatgen := {
  (** [Composition(formula)] *)
  Composition_new : string → Composition;
  (** [c.elements] *)
  comp_elements : Composition → list Element;
  (** [c.reduced_formula] *)
  reduced_formula : Composition → string;
  (** [c.get_reduced_composition_and_factor()[1]] *)
  reduced_factor : Composition → pyfloat;
  (** [c[elt]] *)
  amount : Composition → string → pyfloat;
  (** [Ion.from_formula(name)] and [ion.composition] *)
  Ion_from_formula : string → Ion;
  ion_composition : Ion → Composition;
  (** [MaterialsProjectCompatibility()], [MaterialsProject2020Compatibility()] *)
  MaterialsProjectCompatibility_new : Compatibility;
  MaterialsProject2020Compatibility_new : Compatibility;
  (** [compat.process_entries(entries)] *)
  process_entries :
    MaterialsProjectAqueousCompatibility → list ComputedEntry → list ComputedEntry;
  (** [pd.get_form_energy(entry)] *)
  get_form_energy : PhaseDiagram → ComputedEntry → pyfloat;
}.

(** A record of the ion reference data served by the Materials Project. *)
Record IonRecord := mkIonRecord {
  Name : string;
  Reference_Solid : string;
  Reference_solid_energy : pyfloat;
  Major_Elements : list string;
  Energy : pyfloat;
}.

(** The two methods inherited from [MPRester] that reach the network. *)
Class MPRester := {
  make_request : string → list IonRecord;
  entries_in_chemsys : list string → list string → bool → list ComputedEntry;
}.

Inductive Event :=
| MakeRequest (url : string)
| GetEntriesInChemsys (elements : list string) (property_data : list string)
    (compatible_only : bool).

(** The rester object: the attribute the method sets, and the requests it
    has sent, oldest first. *)
Record Self := mkSelf {
  solid_compat : option Compatibility;
  requests : list Event;
}.

(** The [solid_compat] argument: a string, an instance of
    [Compatibility], or any other object ([None], a class, ...). *)
Inductive SolidCompatArg :=
| ArgStr (s : string)
| ArgInstance (c : Compatibility)
| ArgOther.

(** The [chemsys] argument: a string or a list of element symbols. *)
Inductive ChemsysArg :=
| ChemStr (s : string)
| ChemList (l : list string).

(** *** The monad of the method

    A computation reads the module namespace, updates [self] and returns
    or raises. *)
Definition M (A : Type) : Type := gset string → Self → result A * Self.

Definition ret {A} (a : A) : M A := λ _ self, (Ok a, self).

Definition bind {A B} (m : M A) (f : A → M B) : M B := λ g self,
  match m g self with
  | (Ok a, self') => f a g self'
  | (Raise e, self') => (Raise e, self')
  end.

Definition raise {A} (e : exn) : M A := λ _ self, (Raise e, self).

Definition lift {A} (r : result A) : M A := λ _ self, (r, self).

(** The exceptions a computation can raise all satisfy [allowed]. *)
Definition raises_only {A} (allowed : exn → Prop) (m : M A) : Prop :=
  ∀ g self e, (m g self).1 = Raise e → allowed e.

(** A reference to a module-level name. *)
Definition global (name : string) : M unit := λ g self,
  if decide (name ∈ g) then (Ok (), self) else (Raise (NameError name), self).

(** [self.solid_compat = c] and [self.solid_compat]. *)
Definition set_solid_compat (c : Compatibility) : M unit := λ _ self,
  (Ok (), mkSelf (Some c) (requests self)).

Definition get_solid_compat : M Compatibility := λ _ self,
  match solid_compat self with
  | Some c => (Ok c, self)
  | None => (Raise (AttributeError "solid_compat"), self)
  end.

Definition _make_request `{MPRester} (url : string) : M (list IonRecord) :=
  λ _ self,
    (Ok (make_request url),
     mkSelf (solid_compat self) (requests self ++ [MakeRequest url])).

Definition get_entries_in_chemsys `{MPRester} (elements : list string)
    (property_data : list string) (compatible_only : bool)
  : M (list ComputedEntry) :=
  λ _ self,
    (Ok (entries_in_chemsys elements property_data compatible_only),
     mkSelf (solid_compat self)
       (requests self ++
          [GetEntriesInChemsys elements property_data compatible_only])).

#[local] Instance M_ret : MRet M := @ret.
#[local] Instance M_bind : MBind M := λ A B f m, bind m f.

Context `{Pymatgen} `{MPRester}.

(** *** Lines 39-49: the compatibility scheme *)

Definition solid_compat_error : string :=
  "Solid compatibility can only be 'MaterialsProjectCompatibility', " +:+
  "'MaterialsProject2020Compatibility', or an instance of a Compatibility class".

(** [solid_compat == s] for a string literal [s]. *)
Definition arg_eq (a : SolidCompatArg) (s : string) : bool :=
  match a with
  | ArgStr s' => String.eqb s' s
  | _ => false
  end.

Definition set_compatibility (arg : SolidCompatArg) : M unit :=
  if arg_eq arg "MaterialsProjectCompatibility" then
    global "MaterialsProjectCompatibility";;
    set_solid_compat MaterialsProjectCompatibility_new
  else if arg_eq arg "MaterialsProject2020Compatibility" then
    global "MaterialsProject2020Compatibility";;
    set_solid_compat MaterialsProject2020Compatibility_new
  else
    global "Compatibility";;
    match arg with
    | ArgInstance c => set_solid_compat c
    | _ => raise (ValueError solid_compat_error)
    end.

(** *** Lines 53-60: the chemical system and the reference solids *)

(** [if isinstance(chemsys, str): chemsys = chemsys.split("-")] *)
Definition chemsys_symbols (chemsys : ChemsysArg) : list string :=
  match chemsys with
  | ChemStr s => split "-" s
  | ChemList l => l
  end.

(** [[Composition(d["Reference Solid"]) for d in ion_data]] *)
Fixpoint reference_compositions (ion_data : list IonRecord)
  : M (list Composition) :=
  match ion_data with
  | [] => mret []
  | d :: l =>
      global "Composition";;
      cs ← reference_compositions l;
      mret (Composition_new (Reference_Solid d) :: cs)
  end.

(** *** Lines 89-109: the ion entries *)

(** [[e for e in ion_ref_entries if e.composition.reduced_formula == name]] *)
Definition reference_entries (ion_ref_entries : list ComputedEntry)
    (name : string) : list ComputedEntry :=
  filter (λ e, reduced_formula (composition e) = name) ion_ref_entries.

(** [x.data["e_above_hull"]] *)
Definition e_above_hull (x : ComputedEntry) : result pyfloat :=
  match data x !! "e_above_hull" with
  | Some v => Ok v
  | None => Raise (KeyError "e_above_hull")
  end.

(** [sorted(refs, key=lambda x: x.data["e_above_hull"])]: the keys are
    computed first, one call per element, then the list is sorted. *)
Definition sorted_by_hull (refs : list ComputedEntry)
  : result (list ComputedEntry) :=
  keyed ← comprehension (λ x, k ← e_above_hull x; mret (k, x)) refs;
  mret ((sorted fst keyed).*2).

(** The body of [for n, i_d in enumerate(ion_data)]. *)
Definition ion_body (ion_ref_entries : list ComputedEntry)
    (ion_ref_pd : PhaseDiagram) (n : nat) (i_d : IonRecord)
    (pbx_entries : list PourbaixEntry) : M (list PourbaixEntry) :=
  global "Ion";;
  let ion := Ion_from_formula (Name i_d) in
  let refs := reference_entries ion_ref_entries (Reference_Solid i_d) in
  match refs with
  | [] => raise (ValueError "Reference solid not contained in entry list")
  | _ :: _ =>
      sorted_refs ← lift (sorted_by_hull refs);
      stable_ref ← lift (getitem sorted_refs 0);
      let rf := reduced_factor (composition stable_ref) in
      let solid_diff :=
        fsub (get_form_energy ion_ref_pd stable_ref)
             (fmul (Reference_solid_energy i_d) rf) in
      elt ← lift (getitem (Major_Elements i_d) 0);
      correction_factor ←
        lift (truediv (amount (ion_composition ion) elt)
                      (amount (composition stable_ref) elt));
      let energy := fadd (Energy i_d) (fmul solid_diff correction_factor) in
      global "IonEntry";;
      let ion_entry := mkIonEntry ion energy in
      global "PourbaixEntry";;
      mret (pbx_entries ++
              [mkPourbaixEntry (OfIon ion_entry) (Some ("ion-" +:+ pretty n))])
  end.

Fixpoint ion_loop (ion_ref_entries : list ComputedEntry)
    (ion_ref_pd : PhaseDiagram) (l : list (nat * IonRecord))
    (pbx_entries : list PourbaixEntry) : M (list PourbaixEntry) :=
  match l with
  | [] => mret pbx_entries
  | (n, i_d) :: l' =>
      pbx_entries ← ion_body ion_ref_entries ion_ref_pd n i_d pbx_entries;
      ion_loop ion_ref_entries ion_ref_pd l' pbx_entries
  end.

(** [enumerate(l)] *)
Definition enumerate {A} (l : list A) : list (nat * A) :=
  imap (λ n x, (n, x)) l.

(** *** Lines 113-132: the solid entries *)

(** [{Element(s) for s in chemsys}] *)
Fixpoint chemsys_elements (chemsys : list string) : M (gset Element) :=
  match chemsys with
  | [] => mret ∅
  | s :: l =>
      global "Element";;
      elts ← chemsys_elements l;
      mret ({[ s ]} ∪ elts)
  end.

(** [{Element("H"), Element("O")}] *)
Definition H_and_O : M (gset Element) :=
  global "Element";;
  global "Element";;
  mret ({[ "H"; "O" ]} : gset Element).

Fixpoint solid_loop (ion_ref_pd : PhaseDiagram) (extra_elts : gset Element)
    (l : list ComputedEntry) (pbx_entries : list PourbaixEntry)
  : M (list PourbaixEntry) :=
  match l with
  | [] => mret pbx_entries
  | entry :: l' =>
      let entry_elts : gset Element :=
        list_to_set (comp_elements (composition entry)) in
      HO ← H_and_O;
      if negb (bool_decide (entry_elts ⊆ HO)
               || bool_decide (extra_elts ∩ entry_elts ≠ ∅))
      then
        let form_e := get_form_energy ion_ref_pd entry in
        global "ComputedEntry";;
        let new_entry :=
          ComputedEntry_new (composition entry) form_e (entry_id entry) in
        global "PourbaixEntry";;
        let pbx_entry := mkPourbaixEntry (OfSolid new_entry) None in
        solid_loop ion_ref_pd extra_elts l' (pbx_entries ++ [pbx_entry])
      else solid_loop ion_ref_pd extra_elts l' pbx_entries
  end.

(** *** [MPRester_x_OCP.get_pourbaix_entries_w_add_entries] *)

Definition get_pourbaix_entries_w_add_entries (chemsys : ChemsysArg)
    (solid_compat : SolidCompatArg) (additional_entries : list ComputedEntry)
  : M (list PourbaixEntry) :=
  set_compatibility solid_compat;;
  let pbx_entries := [] in
  let chemsys := chemsys_symbols chemsys in
  let url := "/pourbaix_diagram/reference_data/" +:+ join "-" chemsys in
  ion_data ← _make_request url;
  ion_ref_comps ← reference_compositions ion_data;
  global "itertools";;
  let ion_ref_elts := concat (comp_elements <$> ion_ref_comps) in
  ion_ref_entries ←
    get_entries_in_chemsys
      (elements (list_to_set (ion_ref_elts ++ ["O"; "H"]) : gset string))
      ["e_above_hull"] false;
  global "warnings";;
  global "warnings";;
  global "MaterialsProjectAqueousCompatibility";;
  solid ← get_solid_compat;
  let compat := mkAqueousCompatibility solid in
  global "warnings";;
  global "warnings";;
  let ion_ref_entries := process_entries compat ion_ref_entries in
  global "PhaseDiagram";;
  let ion_ref_pd := mkPhaseDiagram ion_ref_entries in
  pbx_entries ←
    ion_loop ion_ref_entries ion_ref_pd (enumerate ion_data) pbx_entries;
  chemsys_elts ← chemsys_elements chemsys;
  HO ← H_and_O;
  let extra_elts : gset Element :=
    (list_to_set ion_ref_elts ∖ chemsys_elts) ∖ HO in
  let ion_ref_entries := ion_ref_entries ++ additional_entries in
  pbx_entries ← solid_loop ion_ref_pd extra_elts ion_ref_entries pbx_entries;
  mret pbx_entries.

(** *** The local variables as functions of the arguments

    What the method holds in [ion_data] (line 59), [ion_ref_elts]
    (line 61), [ion_ref_entries] (line 85, for the compatibility scheme
    [solid] stored on [self]) and [extra_elts] (line 113). *)

Definition ion_data_of (chemsys : ChemsysArg) : list IonRecord :=
  make_request
    ("/pourbaix_diagram/reference_data/" +:+ join "-" (chemsys_symbols chemsys)).

Definition ion_ref_elts_of (ion_data : list IonRecord) : list Element :=
  concat (comp_elements <$>
            ((λ d, Composition_new (Reference_Solid d)) <$> ion_data)).

Definition ion_ref_entries_of (solid : Compatibility)
    (ion_data : list IonRecord) : list ComputedEntry :=
  process_entries (mkAqueousCompatibility solid)
    (entries_in_chemsys
       (elements (list_to_set (ion_ref_elts_of ion_data ++ ["O"; "H"])
                    : gset string))
       ["e_above_hull"] false).

Definition extra_elts_of (chemsys : ChemsysArg) (ion_data : list IonRecord)
  : gset Element :=
  (list_to_set (ion_ref_elts_of ion_data)
     ∖ list_to_set (chemsys_symbols chemsys)) ∖ {[ "H"; "O" ]}.

End Model.
End MpresterOcp.

(** ** The wording of the specification, for comparison

    The specification describes the site strings of an OQMD record as
    whitespace-separated.  [whitespace_tokens] is that reading (Python's
    [s.split()]: tokens are the maximal runs of non-whitespace characters),
    and [get_ase_object_as_specified] is [get_ase_object] with it in the place
    of [split " "]. *)

Module Specified.
Import Py GetEntriesUtils.

Definition is_whitespace (c : ascii) : bool :=
  let n := nat_of_ascii c in
  (Nat.eqb n 32 || (Nat.leb 9 n && Nat.leb n 13))%bool.

Fixpoint whitespace_tokens (s : string) : list string :=
  match s with
  | EmptyString => []
  | String c s' =>
      if is_whitespace c then whitespace_tokens s'
      else
        match s' with
        | EmptyString => [String c EmptyString]
        | String c' _ =>
            if is_whitespace c' then String c EmptyString :: whitespace_tokens s'
            else match whitespace_tokens s' with
                 | [] => [String c EmptyString]
                 | t :: ts => String c t :: ts
                 end
        end
  end.

Section Specified.
Context `{PyFloat}.

Definition site_info_as_specified (atom_info : string)
  : result (string * list pyfloat) :=
  let tokens := whitespace_tokens atom_info in
  elem ← getitem tokens 0;
  xs ← comprehension float (drop 2 tokens);
  mret (elem, xs).

Definition get_ase_object_as_specified (entry : Entry)
  : result (Atoms * Entry) :=
  infos ← comprehension site_info_as_specified (sites entry);
  let s := mkStructure (mkLattice (unit_cell entry)) (infos.*1) (infos.*2) in
  mret (get_atoms s, set_pmg_struct s (set_atoms_obj (get_atoms s) entry)).
End Specified.
End Specified.

(** ** Concrete instances

    Rational numbers as floats, a server with a handful of pages, and a small
    table of compositions: the inputs at which the theorems below are
    evaluated. *)

Module Fixture.
Import Py GetEntriesUtils MpresterOcp.

(** *** Numbers *)

Definition digit (c : ascii) : option Z :=
  let n := Z.of_nat (nat_of_ascii c) - 48 in
  if (0 <=? n) && (n <=? 9) then Some n else None.

Fixpoint parse_digits (s : string) (acc : Z) : option Z :=
  match s with
  | EmptyString => Some acc
  | String c s' =>
      match digit c with
      | Some d => parse_digits s' (10 * acc + d)
      | None => None
      end
  end.

(** Unsigned decimal integers are the only literals the examples need. *)
Definition Q_of_str (s : string) : option Q :=
  match s with
  | EmptyString => None
  | _ => inject_Z <$> parse_digits s 0
  end.

Definition Q_div (x y : Q) : option Q :=
  if Qeq_bool y 0 then None else Some (Qred (x / y)).

Definition Q_lt (x y : Q) : bool := negb (Qle_bool y x).

#[export] Instance Q_float : PyFloat := {|
  pyfloat := Q;
  fadd := Qplus;
  fsub := Qminus;
  fmul := Qmult;
  fdiv := Q_div;
  flt := Q_lt;
  float_of_str := Q_of_str;
|}.

(** *** OQMD *)

Definition cubic_cell : list (list Q) :=
  [ [1%Q; 0%Q; 0%Q]; [0%Q; 1%Q; 0%Q]; [0%Q; 0%Q; 1%Q] ].

(** A phase with one iron atom at the origin. *)
Definition iron (id : Z) : Entry :=
  mkEntry cubic_cell ["Fe @ 0 0 0"] id (-1)%Q None None.

(** A phase whose site string has two spaces after the element. *)
Definition iron_two_spaces : Entry :=
  mkEntry cubic_cell ["Fe  @ 0 0 0"] 7 (-1)%Q None None.

(** The structure of the iron phase, the phase as [get_ase_object] leaves
    it, and its row in the database. *)
Definition iron_structure : Structure :=
  mkStructure (mkLattice cubic_cell) ["Fe"] [[0%Q; 0%Q; 0%Q]].

Definition iron_done (id : Z) : Entry :=
  mkEntry cubic_cell ["Fe @ 0 0 0"] id (-1)%Q
    (Some (get_atoms iron_structure)) (Some iron_structure).

Definition iron_row (bulk_id : string) : Row :=
  mkRow (get_atoms iron_structure) "oqmd" bulk_id (-1)%Q.


(** A server that always has a further page. *)
#[export] Instance endless : QMPYRester := {|
  oqmd_phases n _ := mkResponse [iron (Z.of_nat n)] (Some "https://oqmd.org/next")
|}.

(** A server with exactly two pages. *)
Definition two_pages : QMPYRester := {|
  oqmd_phases n _ :=
    match n with
    | O => mkResponse [iron 0] (Some "https://oqmd.org/next")
    | _ => mkResponse [iron 1] None
    end
|}.

(** *** Materials Project *)

Record Formula := mkFormula { formula : string; amounts : list (string * Q) }.

Definition amounts_of (f : string) : list (string * Q) :=
  if String.eqb f "Na2SO4" then [("Na", 2%Q); ("S", 1%Q); ("O", 4%Q)]
  else if String.eqb f "SO4[2-]" then [("S", 1%Q); ("O", 4%Q)]
  else if String.eqb f "Na2S" then [("Na", 2%Q); ("S", 1%Q)]
  else if String.eqb f "SO3" then [("S", 1%Q); ("O", 3%Q)]
  else if String.eqb f "H2O" then [("H", 2%Q); ("O", 1%Q)]
  else if String.eqb f "S" then [("S", 1%Q)]
  else [].

Definition formula_of (f : string) : Formula := mkFormula f (amounts_of f).

Definition amount_in (c : Formula) (elt : string) : Q :=
  default 0%Q (snd <$> list_find (λ p, String.eqb (fst p) elt = true) (amounts c) ≫= λ p, Some (snd p)).

Definition solid (f id : string) (hull : Q) (e : Q)
  : @ComputedEntry Q_float Formula :=
  mkComputedEntry (formula_of f) e id {[ "e_above_hull" := hull ]}.

#[export] Instance toy_pymatgen : @Pymatgen Q_float Formula string string := {|
  Composition_new := formula_of;
  comp_elements c := (amounts c).*1;
  reduced_formula := formula;
  reduced_factor _ := 1%Q;
  amount := amount_in;
  Ion_from_formula name := name;
  ion_composition := formula_of;
  MaterialsProjectCompatibility_new := "MaterialsProjectCompatibility()";
  MaterialsProject2020Compatibility_new := "MaterialsProject2020Compatibility()";
  process_entries _ l := l;
  get_form_energy _ e := energy e;
|}.

Definition sulfate : @IonRecord Q_float :=
  mkIonRecord "SO4[2-]" "Na2SO4" (-13)%Q ["S"] (-7)%Q.

#[export] Instance toy_rester : @MPRester Q_float Formula := {|
  make_request _ := [sulfate];
  entries_in_chemsys _ _ _ :=
    [ solid "Na2SO4" "mp-1" 2%Q (-12)%Q;
      solid "Na2SO4" "mp-2" 0%Q (-14)%Q;
      solid "S" "mp-3" 0%Q 0%Q;
      solid "H2O" "mp-4" 0%Q (-3)%Q;
      solid "Na2S" "mp-5" 0%Q (-4)%Q;
      solid "SO3" "mp-6" 0%Q (-5)%Q ];
|}.

(** The module namespace after the four missing names have been bound from
    outside, as [module.itertools = itertools] does. *)
Definition patched_globals : gset string :=
  module_globals ∪ {[ "itertools"; "warnings"; "Element"; "ComputedEntry" ]}.

Definition fresh_self : @Self string := mkSelf None [].

(** The entries the toy rester serves, and their phase diagram. *)
Definition sulfur_ref_entries : list (@ComputedEntry Q_float Formula) :=
  entries_in_chemsys [] [] false.

Definition sulfur_pd : @PhaseDiagram Q_float Formula :=
  mkPhaseDiagram sulfur_ref_entries.

(** An ion whose reference solid is not among the entries served. *)
Definition chloride : @IonRecord Q_float :=
  mkIonRecord "Cl[-]" "NaCl" (-4)%Q ["Cl"] (-1)%Q.

(** Two entries of the user's own: sodium sulfate without data, as
    [ComputedEntry(composition, energy, entry_id=...)] makes it, and sulfur
    trioxide. *)
Definition sulfate_without_data : @ComputedEntry Q_float Formula :=
  ComputedEntry_new (formula_of "Na2SO4") (-12)%Q "user-1".

Definition sulfur_trioxide : @ComputedEntry Q_float Formula :=
  ComputedEntry_new (formula_of "SO3") (-6)%Q "user-2".

(** The sulfate record without major elements, and with a major element
    that sodium sulfate does not hold. *)
Definition sulfate_without_elements : @IonRecord Q_float :=
  mkIonRecord "SO4[2-]" "Na2SO4" (-13)%Q [] (-7)%Q.

Definition sulfate_of_chlorine : @IonRecord Q_float :=
  mkIonRecord "SO4[2-]" "Na2SO4" (-13)%Q ["Cl"] (-7)%Q.

(** A call for the sulfur system in the patched namespace, and what it
    returns. *)
Definition sulfur_run
  : result (list (@PourbaixEntry Q_float Formula string)) * @Self string :=
  get_pourbaix_entries_w_add_entries (ChemStr "S")
    (ArgStr "MaterialsProject2020Compatibility") [] patched_globals fresh_self.

Definition sulfur_entries : list (@PourbaixEntry Q_float Formula string) :=
  Eval vm_compute in
    match sulfur_run.1 with
    | Ok l => l
    | Raise _ => []
    end.

Definition sulfur_self : @Self string := Eval vm_compute in sulfur_run.2.

End Fixture.

(** * Properties *)

(** ** Strings *)

Section StringFacts.
Import Py.

Lemma split_nonempty sep s : split sep s ≠ [].
Proof. destruct s as [|c s]; simpl; [done|]. by repeat case_match. Qed.

Lemma split_sep sep s : split sep (String sep s) = "" :: split sep s.
Proof. simpl. by rewrite Ascii.eqb_refl. Qed.

(** A prefix without the separator joins the first token of what follows. *)
Lemma split_prefix sep t s :
  contains sep t = false →
  split sep (t +:+ s) = (t +:+ default "" (head (split sep s))) :: tail (split sep s).
Proof.
  induction t as [|c t IH]; simpl; intros Hc.
  - pose proof (split_nonempty sep s).
    change ("" +:+ s) with s. by destruct (split sep s).
  - apply orb_false_elim in Hc as [Hc Ht].
    change (String c t +:+ s) with (String c (t +:+ s)). simpl.
    by rewrite Hc, (IH Ht).
Qed.

Lemma split_token sep t : contains sep t = false → split sep t = [t].
Proof.
  induction t as [|c t IH]; simpl; [done|]; intros Hc.
  apply orb_false_elim in Hc as [Hc Ht]. by rewrite Hc, (IH Ht).
Qed.

(** Splitting is the inverse of joining tokens that are free of the
    separator; the tokens may be empty. *)
Lemma split_join sep toks :
  toks ≠ [] →
  Forall (λ t, contains sep t = false) toks →
  split sep (join (String sep "") toks) = toks.
Proof.
  induction toks as [|t toks IH]; [done|]; intros _ Hall.
  apply Forall_cons in Hall as [Ht Hall].
  destruct toks as [|t' toks]; [by apply split_token|].
  change (join (String sep "") (t :: t' :: toks))
    with (t +:+ String sep (join (String sep "") (t' :: toks))).
  rewrite split_prefix, split_sep by done.
  rewrite IH by done. simpl. f_equal.
  clear. induction t as [|c t IHt]; [done|].
  change (String c t +:+ "") with (String c (t +:+ "")). by rewrite IHt.
Qed.

End StringFacts.

(** ** [get_entries_utils.py] *)

Section GetEntriesUtilsFacts.
Import Py GetEntriesUtils.
Context `{PyFloat} `{!QMPYRester}.

(** *** Pagination *)

(** Every iteration queries with the current batch number, whatever the
    state the loop is entered in. *)
Lemma get_all_entries_loop_log fuel maximum_pages page_limit continue_bool
    (batch_num : Z) cumulative_data log :
  ∃ k : nat,
    (get_all_entries_loop fuel maximum_pages page_limit continue_bool
       batch_num cumulative_data log).2
    = log ++ ((λ i : nat, all_entries_kwargs page_limit (batch_num + Z.of_nat i))
                <$> seq 0 k).
Proof.
  revert continue_bool batch_num cumulative_data log.
  induction fuel as [|fuel IH]; intros [] b cum log; simpl;
    try (exists 0%nat; simpl; by rewrite app_nil_r).
  match goal with |- context [get_all_entries_loop fuel _ _ ?c ?b' ?cum' ?log'] =>
    destruct (IH c b' cum' log') as [k Hk]; rewrite Hk end.
  exists (S k). rewrite <- app_assoc. f_equal. simpl. f_equal.
  - by rewrite Z.add_0_r.
  - rewrite <- seq_shift, <- list_fmap_compose. apply list_fmap_ext.
    intros _ i _. simpl. f_equal. lia.
Qed.

(** C7: every query of [get_all_entries] carries [limit = page_limit],
    [offset = batch_num * page_limit] for the batch number of its iteration
    (0 for the first query, 1 for the second, ...) and the fixed filter
    string; the queries the call adds to the log are exactly these. *)
Theorem get_all_entries_queries fuel maximum_pages page_limit log :
  ∃ k : nat,
    (get_all_entries fuel maximum_pages page_limit log).2
    = log ++
      ((λ batch_num : nat,
          [ ("limit", KwInt page_limit);
            ("offset", KwInt (Z.of_nat batch_num * page_limit));
            ("filter", KwStr "stability <= 0.1 AND delta_e <= 0 AND ntypes < 4") ])
         <$> seq 0 k).
Proof.
  unfold get_all_entries.
  destruct (get_all_entries_loop_log fuel maximum_pages page_limit true 0 [] log)
    as [k Hk].
  exists k. rewrite Hk. done.
Qed.

(** The loop returns once the fuel exceeds the page bound. *)
Lemma get_all_entries_loop_returns fuel m page_limit continue_bool
    (batch_num : Z) cumulative_data log :
  (Z.to_nat (m - batch_num) < fuel)%nat →
  is_Some (get_all_entries_loop fuel (Pages m) page_limit continue_bool
             batch_num cumulative_data log).1.
Proof.
  revert continue_bool batch_num cumulative_data log.
  induction fuel as [|fuel IH]; intros cb b cum log Hfuel; [lia|].
  destruct cb; simpl; [|by eexists].
  destruct (truthy _ && (b + 1 <=? m)) eqn:Hc.
  - apply andb_prop in Hc as [_ Hle%Z.leb_le]. apply IH. lia.
  - destruct fuel; simpl; by eexists.
Qed.

Lemma get_all_entries_returns fuel m page_limit log :
  (Z.to_nat m < fuel)%nat →
  is_Some (get_all_entries fuel (Pages m) page_limit log).1.
Proof.
  intros Hfuel. apply get_all_entries_loop_returns.
  by rewrite Z.sub_0_r.
Qed.

(** With [maximum_pages = m] the loop sends one query and then one more for
    every batch number up to [m]: at most [m + 1] queries for [m ≥ 0]. *)
Lemma get_all_entries_loop_count fuel m page_limit (batch_num : Z)
    cumulative_data log :
  (length (get_all_entries_loop fuel (Pages m) page_limit true
             batch_num cumulative_data log).2
   ≤ length log + 1 + Z.to_nat (m - batch_num))%nat.
Proof.
  revert batch_num cumulative_data log.
  induction fuel as [|fuel IH]; intros b cum log; simpl; [lia|].
  destruct (truthy _ && (b + 1 <=? m)) eqn:Hc.
  - apply andb_prop in Hc as [_ Hle%Z.leb_le].
    etrans; [apply IH|]. rewrite length_app. simpl. lia.
  - destruct fuel; simpl; rewrite length_app; simpl; lia.
Qed.

Lemma get_all_entries_count fuel m page_limit :
  (length (get_all_entries fuel (Pages m) page_limit []).2 ≤ 1 + Z.to_nat m)%nat.
Proof.
  unfold get_all_entries. etrans; [apply get_all_entries_loop_count|].
  rewrite Z.sub_0_r. simpl. lia.
Qed.

(** The value returned is the data of the pages fetched, in the order of
    the queries. *)
Lemma get_all_entries_loop_data fuel maximum_pages page_limit continue_bool
    (batch_num : Z) cumulative_data log entries log' :
  get_all_entries_loop fuel maximum_pages page_limit continue_bool
    batch_num cumulative_data log = (Some entries, log') →
  ∃ k : nat,
    length log' = (length log + k)%nat ∧
    entries = cumulative_data ++
      concat ((λ i : nat,
                 resp_data (oqmd_phases (length log + i)
                   (all_entries_kwargs page_limit (batch_num + Z.of_nat i))))
                <$> seq 0 k).
Proof.
  revert continue_bool batch_num cumulative_data log.
  induction fuel as [|fuel IH]; intros [] b cum log; simpl; intros Hrun;
    try discriminate;
    try (injection Hrun as <- <-; exists 0%nat; simpl;
         by rewrite app_nil_r, Nat.add_0_r).
  apply IH in Hrun as (k & Hlen & ->). exists (S k). split.
  - rewrite Hlen, length_app. simpl. lia.
  - rewrite <- app_assoc. f_equal. simpl.
    rewrite Z.add_0_r, Nat.add_0_r. f_equal.
    rewrite <- seq_shift, <- list_fmap_compose. f_equal.
    apply list_fmap_ext. intros _ i _. simpl.
    rewrite length_app. simpl. do 2 f_equal; [lia|f_equal; lia].
Qed.

(** [get_icsd_entries] sends one query, with offset 0, and returns the data
    of that page, whatever its ["next"] link and the page bound are. *)
Lemma get_icsd_entries_one_query maximum_pages page_limit log :
  get_icsd_entries maximum_pages page_limit log
  = (resp_data (oqmd_phases (length log)
                  [ ("limit", KwInt page_limit); ("offset", KwInt 0);
                    ("icsd", KwStr "T") ]),
     log ++ [[ ("limit", KwInt page_limit); ("offset", KwInt 0);
               ("icsd", KwStr "T") ]]).
Proof. reflexivity. Qed.

(** *** [get_ase_object] *)

Lemma sites_loop_comprehension l elems coords :
  sites_loop l elems coords
  = infos ← comprehension site_info l;
    mret (elems ++ infos.*1, coords ++ infos.*2).
Proof.
  revert elems coords. induction l as [|a l IH]; intros elems coords; simpl.
  - by rewrite !app_nil_r.
  - destruct (site_info a) as [[elem xs]|e]; simpl; [|done].
    rewrite IH. destruct (comprehension site_info l) as [infos|e]; simpl; [|done].
    by rewrite <- !app_assoc.
Qed.

Lemma site_info_join toks :
  toks ≠ [] →
  Forall (λ t, contains " " t = false) toks →
  site_info (join " " toks)
  = xs ← comprehension float (drop 2 toks); mret (default "" (head toks), xs).
Proof.
  intros Hne Hall. unfold site_info. rewrite split_join by done.
  by destruct toks.
Qed.

(** The entry comes back with the two keys set and the others untouched. *)
Lemma get_ase_object_entry entry atoms entry' :
  get_ase_object entry = Ok (atoms, entry') →
  atoms_obj entry' = Some atoms ∧
  pmg_struct entry' = Some (atoms_structure atoms) ∧
  unit_cell entry' = unit_cell entry ∧ sites entry' = sites entry ∧
  entry_id entry' = entry_id entry ∧ delta_e entry' = delta_e entry.
Proof.
  unfold get_ase_object.
  destruct (sites_loop _ _ _) as [[elems cs]|e]; simpl; [|done].
  by intros [= <- <-].
Qed.

Lemma comprehension_site_info (l : list string) (tokens : list (list string))
    (xyz : list (list pyfloat)) :
  Forall2 (λ site toks,
             toks ≠ [] ∧ Forall (λ t, contains " " t = false) toks ∧
             site = join " " toks) l tokens →
  Forall2 (λ toks xs, comprehension float (drop 2 toks) = Ok xs) tokens xyz →
  comprehension site_info l
  = Ok (zip ((λ toks, default "" (head toks)) <$> tokens) xyz).
Proof.
  intros Hsites. revert xyz.
  induction Hsites as [|site toks l tokens (Hne & Hall & ->) _ IH];
    intros xyz Hxyz.
  - by apply Forall2_nil_inv_l in Hxyz as ->.
  - apply Forall2_cons_inv_l in Hxyz as (xs & xyz' & Hxs & Hxyz & ->).
    simpl. rewrite site_info_join, Hxs by done. simpl.
    by rewrite (IH _ Hxyz).
Qed.

(** C9, as amended: when every site string is a sequence of tokens joined by
    single spaces (a token holds no space; it may be empty, which is what
    two consecutive spaces give), [get_ase_object] takes the first token of
    each site as the element and the tokens from index 2 onward, parsed as
    floats, as the coordinates; it builds the structure on the lattice of
    ["unit_cell"], stores the atoms object and the structure on the entry
    and returns the atoms object. *)
Theorem get_ase_object_tokens (entry : Entry) (tokens : list (list string))
    (xyz : list (list pyfloat)) :
  Forall2 (λ site toks,
             toks ≠ [] ∧ Forall (λ t, contains " " t = false) toks ∧
             site = join " " toks) (sites entry) tokens →
  Forall2 (λ toks xs, comprehension float (drop 2 toks) = Ok xs) tokens xyz →
  let s := mkStructure (mkLattice (unit_cell entry))
             ((λ toks, default "" (head toks)) <$> tokens) xyz in
  ∃ entry',
    get_ase_object entry = Ok (get_atoms s, entry') ∧
    atoms_obj entry' = Some (get_atoms s) ∧
    pmg_struct entry' = Some s.
Proof.
  intros Hsites Hxyz s. unfold get_ase_object.
  rewrite sites_loop_comprehension,
    (comprehension_site_info _ _ _ Hsites Hxyz).
  assert (length ((λ toks, default "" (head toks)) <$> tokens) = length xyz)
    as Hlen by (rewrite length_fmap; by eapply Forall2_length).
  simpl. rewrite fst_zip, snd_zip by lia. by eexists.
Qed.

(** *** [write_data] *)

Lemma write_loop_rows entries db :
  Forall (λ entry, is_ok (get_ase_object entry) = true) entries →
  ∃ rows entries',
    write_loop entries db = Ok (db ++ rows, entries') ∧
    Forall2 (λ entry row,
               (∃ entry', get_ase_object entry = Ok (row_atoms row, entry')) ∧
               row_source row = "oqmd" ∧
               row_bulk_id row = "oqmd-" +:+ pretty (entry_id entry) ∧
               row_formation_energy row = delta_e entry) entries rows.
Proof.
  intros Hok. revert db.
  induction Hok as [|entry entries Hentry _ IH]; intros db; simpl.
  - exists [], []. by rewrite app_nil_r.
  - destruct (get_ase_object entry) as [[atoms entry']|e] eqn:Hget; [|done].
    apply get_ase_object_entry in Hget as Hsame.
    destruct Hsame as (_ & _ & _ & _ & Hid & Hde). simpl.
    destruct (IH (db ++ [mkRow atoms "oqmd" ("oqmd-" +:+ pretty (entry_id entry'))
                           (delta_e entry')])) as (rows & done & -> & Hrows).
    simpl. eexists (_ :: rows), _. rewrite <- app_assoc. split; [done|].
    constructor; [|done]. simpl. rewrite Hid, Hde. eauto.
Qed.

(** C8: [write_data] adds one row per entry to the database at [path], in
    the order of the list; the row of an entry holds the atoms object
    [get_ase_object] returns for it, [source = "oqmd"], [bulk_id = "oqmd-"]
    followed by the entry's [entry_id], and [formation_energy] equal to the
    entry's [delta_e].  The entries are those [get_ase_object] accepts. *)
Theorem write_data_rows entries path (disk : Disk) :
  Forall (λ entry, is_ok (get_ase_object entry) = true) entries →
  ∃ rows entries',
    write_data entries path disk
    = Ok (<[path := default [] (disk !! path) ++ rows]> disk, entries') ∧
    Forall2 (λ entry row,
               (∃ entry', get_ase_object entry = Ok (row_atoms row, entry')) ∧
               row_source row = "oqmd" ∧
               row_bulk_id row = "oqmd-" +:+ pretty (entry_id entry) ∧
               row_formation_energy row = delta_e entry) entries rows.
Proof.
  intros Hok. unfold write_data, connect.
  destruct (write_loop_rows entries (default [] (disk !! path)) Hok)
    as (rows & entries' & -> & Hrows).
  by exists rows, entries'.
Qed.

End GetEntriesUtilsFacts.

(** ** Sorting *)

Section SortedFacts.
Import Py.
Context `{FloatOrder} {A : Type} (key : A → pyfloat).

Lemma flt_irrefl x : flt x x = false.
Proof. destruct (flt x x) eqn:Hx; [by apply flt_asym in Hx as Hx'; congruence|done]. Qed.

Lemma insert_sorted_head x l :
  head (insert_sorted key x l)
  = match head l with
    | Some y => if flt (key y) (key x) then Some y else Some x
    | None => Some x
    end.
Proof. destruct l as [|y l]; simpl; [done|]. by destruct (flt _ _). Qed.

Lemma sorted_nil l : sorted key l = [] → l = [].
Proof.
  destruct l as [|a l]; [done|]. simpl.
  destruct (sorted key l) as [|y s]; simpl; [done|]. by destruct (flt _ _).
Qed.

(** The first element of the sorted list is an element of the list that no
    other element is below. *)
Lemma sorted_head l x :
  head (sorted key l) = Some x →
  x ∈ l ∧ ∀ y, y ∈ l → flt (key y) (key x) = false.
Proof.
  revert x. induction l as [|a l IH]; intros x; simpl; [done|].
  rewrite insert_sorted_head.
  destruct (head (sorted key l)) as [y|] eqn:Hhead.
  - destruct (IH y eq_refl) as [Hy Hmin].
    destruct (flt (key y) (key a)) eqn:Hya; intros [= <-].
    + split; [by right|]. intros z [->|Hz]%elem_of_cons; [by apply flt_asym|auto].
    + split; [by left|]. intros z [->|Hz]%elem_of_cons; [apply flt_irrefl|].
      eapply flt_negtrans; eauto.
  - intros [= <-]. apply head_None, sorted_nil in Hhead as ->.
    split; [by left|]. intros z ->%list_elem_of_singleton. apply flt_irrefl.
Qed.

End SortedFacts.

(** ** [mprester_ocp.py] *)

Section MpresterOcpFacts.
Import Py MpresterOcp.
Context `{PyFloat} {Composition Ion Compatibility : Type}.
Context `{!@Pymatgen _ Composition Ion Compatibility} `{!@MPRester _ Composition}.

#[local] Existing Instances M_ret M_bind.

Local Abbreviation M := (@M Compatibility).
Local Abbreviation Self := (@Self Compatibility).
Local Abbreviation ComputedEntry := (@ComputedEntry _ Composition).
Local Abbreviation PhaseDiagram := (@PhaseDiagram _ Composition).
Local Abbreviation PourbaixEntry := (@PourbaixEntry _ Composition Ion).
Local Abbreviation SolidCompatArg := (@SolidCompatArg Compatibility).

(** *** The monad *)

Lemma bind_run {A B} (m : M A) (f : A → M B) g self :
  (m ≫= f) g self
  = match m g self with
    | (Ok a, self') => f a g self'
    | (Raise e, self') => (Raise e, self')
    end.
Proof. reflexivity. Qed.

Lemma bind_ok {A B} (m : M A) (f : A → M B) g self b self' :
  (m ≫= f) g self = (Ok b, self') →
  ∃ a self1, m g self = (Ok a, self1) ∧ f a g self1 = (Ok b, self').
Proof.
  rewrite bind_run. destruct (m g self) as [[a|e] self1]; [eauto|done].
Qed.

Lemma global_ok name g (self : Self) u self' :
  global name g self = (Ok u, self') → name ∈ g ∧ self' = self.
Proof. unfold global. case_decide; [|done]. by intros [= _ <-]. Qed.

Lemma global_elem name g (self : Self) :
  name ∈ g → global name g self = (Ok (), self).
Proof. intros Hin. unfold global. by rewrite decide_True. Qed.

Lemma global_not_elem name g (self : Self) :
  name ∉ g → global name g self = (Raise (NameError name), self).
Proof. intros Hin. unfold global. by rewrite decide_False. Qed.

Lemma lift_ok {A} (r : result A) g (self : Self) a self' :
  lift r g self = (Ok a, self') → r = Ok a ∧ self' = self.
Proof. unfold lift. by intros [= -> <-]. Qed.

Lemma ret_ok {A} (x : A) g (self : Self) a self' :
  (mret x : M A) g self = (Ok a, self') → a = x ∧ self' = self.
Proof. by intros [= <- <-]. Qed.

(** *** Comprehensions *)

Lemma comprehension_ok {A B} (f : A → result B) l ys :
  comprehension f l = Ok ys ↔ Forall2 (λ x y, f x = Ok y) l ys.
Proof.
  revert ys. induction l as [|x l IH]; intros ys; simpl.
  - split; [intros [= <-]; constructor|by intros ->%Forall2_nil_inv_l].
  - split.
    + destruct (f x) as [y|] eqn:Hx; [|done].
      destruct (comprehension f l) as [ys'|]; [|done].
      intros [= <-]. constructor; [done|by apply IH].
    + intros (y & ys' & Hy & Hys & ->)%Forall2_cons_inv_l.
      apply IH in Hys. by rewrite Hy, Hys.
Qed.

(** *** The ion entries *)

Lemma e_above_hull_ok (x : ComputedEntry) k :
  e_above_hull x = Ok k ↔ data x !! "e_above_hull" = Some k.
Proof.
  unfold e_above_hull. destruct (data x !! "e_above_hull"); naive_solver.
Qed.

(** The first element of the list sorted by energy above hull is an element
    of the list with the least energy above hull. *)
Lemma sorted_by_hull_head `{!FloatOrder} (refs sorted_refs : list ComputedEntry)
    stable_ref :
  sorted_by_hull refs = Ok sorted_refs →
  sorted_refs !! 0%nat = Some stable_ref →
  stable_ref ∈ refs ∧
  ∃ hull, data stable_ref !! "e_above_hull" = Some hull ∧
    ∀ e h, e ∈ refs → data e !! "e_above_hull" = Some h → flt h hull = false.
Proof.
  unfold sorted_by_hull.
  destruct (comprehension _ refs) as [keyed|] eqn:Hkeyed; [|done].
  simpl. intros [= <-]. rewrite list_lookup_fmap, <- head_lookup.
  destruct (head (sorted fst keyed)) as [[hull x]|] eqn:Hhead; [|done].
  intros [= <-]. apply comprehension_ok in Hkeyed.
  apply sorted_head in Hhead as [Hin Hmin].
  assert (∀ k x, (k, x) ∈ keyed → x ∈ refs ∧ data x !! "e_above_hull" = Some k)
    as Hkey.
  { intros k x' [i Hi]%list_elem_of_lookup.
    destruct (Forall2_lookup_r _ _ _ _ _ Hkeyed Hi) as (x0 & Hx0 & Hfx).
    destruct (e_above_hull x0) as [k0|] eqn:Hk0; [|done].
    injection Hfx as <- <-. split; [by eapply list_elem_of_lookup_2|].
    by apply e_above_hull_ok. }
  destruct (Hkey _ _ Hin) as [Hx Hhull]. split; [done|].
  exists hull. split; [done|]. intros e h [i Hi]%list_elem_of_lookup He.
  destruct (Forall2_lookup_l _ _ _ _ _ Hkeyed Hi) as (y & Hy & Hfe).
  apply e_above_hull_ok in He. rewrite He in Hfe. injection Hfe as <-.
  apply (Hmin (h, e)). by eapply list_elem_of_lookup_2.
Qed.

(** What one iteration of the ion loop appends for the record [i_d] with
    index [n]: the entry of the ion with its energy aligned to a reference
    entry [stable_ref] of least energy above hull. *)
Local Abbreviation aligned ion_ref_entries ion_ref_pd n i_d entry :=
  (∃ (stable_ref : ComputedEntry) (hull : pyfloat) (elt : string)
     (correction_factor : pyfloat),
     stable_ref ∈ ion_ref_entries ∧
     reduced_formula (composition stable_ref) = Reference_Solid i_d ∧
     data stable_ref !! "e_above_hull" = Some hull ∧
     (∀ e h, e ∈ ion_ref_entries →
             reduced_formula (composition e) = Reference_Solid i_d →
             data e !! "e_above_hull" = Some h → flt h hull = false) ∧
     Major_Elements i_d !! 0%nat = Some elt ∧
     fdiv (amount (ion_composition (Ion_from_formula (Name i_d))) elt)
          (amount (composition stable_ref) elt) = Some correction_factor ∧
     entry =
       mkPourbaixEntry
         (OfIon
            (mkIonEntry (Ion_from_formula (Name i_d))
               (fadd (Energy i_d)
                  (fmul
                     (fsub (get_form_energy ion_ref_pd stable_ref)
                        (fmul (Reference_solid_energy i_d)
                           (reduced_factor (composition stable_ref))))
                     correction_factor))))
         (Some ("ion-" +:+ pretty n))).

(** A run of the loop body that returns, step by step. *)
Lemma ion_body_run ion_ref_entries ion_ref_pd (n : nat) i_d
    pbx_entries g (self : Self) pbx_entries' self' :
  ion_body ion_ref_entries ion_ref_pd n i_d pbx_entries g self
    = (Ok pbx_entries', self') →
  self' = self ∧
  ∃ sorted_refs stable_ref elt correction_factor,
    sorted_by_hull (reference_entries ion_ref_entries (Reference_Solid i_d))
      = Ok sorted_refs ∧
    sorted_refs !! 0%nat = Some stable_ref ∧
    Major_Elements i_d !! 0%nat = Some elt ∧
    fdiv (amount (ion_composition (Ion_from_formula (Name i_d))) elt)
         (amount (composition stable_ref) elt) = Some correction_factor ∧
    pbx_entries' = pbx_entries ++
      [ mkPourbaixEntry
          (OfIon
             (mkIonEntry (Ion_from_formula (Name i_d))
                (fadd (Energy i_d)
                   (fmul
                      (fsub (get_form_energy ion_ref_pd stable_ref)
                         (fmul (Reference_solid_energy i_d)
                            (reduced_factor (composition stable_ref))))
                      correction_factor))))
          (Some ("ion-" +:+ pretty n)) ].
Proof.
  unfold ion_body. intros Hrun.
  apply bind_ok in Hrun as (_ & self1 & [_ ->]%global_ok & Hrun).
  destruct (reference_entries ion_ref_entries (Reference_Solid i_d))
    as [|r refs] eqn:Hrefs; [done|].
  apply bind_ok in Hrun as (sorted_refs & ? & [Hsorted ->]%lift_ok & Hrun).
  apply bind_ok in Hrun as (stable_ref & ? & [Hfirst ->]%lift_ok & Hrun).
  apply bind_ok in Hrun as (elt & ? & [Helt ->]%lift_ok & Hrun).
  apply bind_ok in Hrun as (cf & ? & [Hcf ->]%lift_ok & Hrun).
  apply bind_ok in Hrun as (_ & ? & [_ ->]%global_ok & Hrun).
  apply bind_ok in Hrun as (_ & ? & [_ ->]%global_ok & Hrun).
  apply ret_ok in Hrun as [-> ->]. split; [done|].
  unfold getitem in Hfirst, Helt.
  destruct (sorted_refs !! 0%nat) as [?|] eqn:Hhead; [|done].
  injection Hfirst as ->.
  destruct (Major_Elements i_d !! 0%nat) as [?|] eqn:Hmajor; [|done].
  injection Helt as ->.
  unfold truediv in Hcf. destruct (fdiv _ _) as [?|] eqn:Hdiv; [|done].
  injection Hcf as ->.
  by exists sorted_refs, stable_ref, elt, cf.
Qed.

Lemma ion_body_ok `{!FloatOrder} ion_ref_entries ion_ref_pd (n : nat) i_d
    pbx_entries g (self : Self) pbx_entries' self' :
  ion_body ion_ref_entries ion_ref_pd n i_d pbx_entries g self
    = (Ok pbx_entries', self') →
  ∃ entry, pbx_entries' = pbx_entries ++ [entry] ∧
           aligned ion_ref_entries ion_ref_pd n i_d entry.
Proof.
  intros (_ & sorted_refs & stable_ref & elt & cf & Hsorted & Hhead & Hmajor
          & Hdiv & ->)%ion_body_run.
  destruct (sorted_by_hull_head _ _ _ Hsorted Hhead)
    as (Hin & hull & Hhull & Hmin).
  unfold reference_entries in Hin. apply list_elem_of_filter in Hin as [Hform Hin].
  eexists. split; [done|]. exists stable_ref, hull, elt, cf.
  repeat split; try done.
  intros e h He Hform' Hh. apply (Hmin e h); [|done].
  unfold reference_entries. by apply list_elem_of_filter.
Qed.

(** The loop leaves [self] alone and appends one labelled ion entry per
    record. *)
Lemma ion_loop_run ion_ref_entries ion_ref_pd
    (l : list (nat * IonRecord)) pbx_entries g (self : Self) pbx_entries' self' :
  ion_loop ion_ref_entries ion_ref_pd l pbx_entries g self
    = (Ok pbx_entries', self') →
  self' = self ∧
  ∃ ions, pbx_entries' = pbx_entries ++ ions ∧
          Forall2 (λ p entry,
                     ∃ ion_entry,
                       entry = mkPourbaixEntry (OfIon ion_entry)
                                 (Some ("ion-" +:+ pretty p.1)))
            l ions.
Proof.
  revert pbx_entries self. induction l as [|[n i_d] l IH]; intros pbx self; simpl.
  - intros [-> ->]%ret_ok. split; [done|]. exists []. by rewrite app_nil_r.
  - intros (pbx1 & self1 & Hbody & Hloop)%bind_ok.
    apply ion_body_run in Hbody as (-> & ? & ? & ? & ? & _ & _ & _ & _ & ->).
    apply IH in Hloop as (-> & ions & -> & Hions). split; [done|].
    eexists (_ :: ions). rewrite <- app_assoc. split; [done|].
    constructor; [by eexists|done].
Qed.

Lemma ion_loop_ok `{!FloatOrder} ion_ref_entries ion_ref_pd
    (l : list (nat * IonRecord)) pbx_entries g (self : Self) pbx_entries' self' :
  ion_loop ion_ref_entries ion_ref_pd l pbx_entries g self
    = (Ok pbx_entries', self') →
  ∃ ions, pbx_entries' = pbx_entries ++ ions ∧
          Forall2 (λ p entry, aligned ion_ref_entries ion_ref_pd p.1 p.2 entry)
            l ions.
Proof.
  revert pbx_entries self. induction l as [|[n i_d] l IH]; intros pbx self; simpl.
  - intros [-> ->]%ret_ok. exists []. by rewrite app_nil_r.
  - intros (pbx1 & self1 & Hbody & Hloop)%bind_ok.
    apply ion_body_run in Hbody as Hself. destruct Hself as [-> _].
    apply ion_body_ok in Hbody as (entry & -> & Hentry).
    apply IH in Hloop as (ions & -> & Hions).
    exists (entry :: ions). rewrite <- app_assoc. split; [done|].
    by constructor.
Qed.

(** *** The solid entries *)

Lemma H_and_O_ok g (self : Self) HO self' :
  H_and_O g self = (Ok HO, self') → HO = {[ "H"; "O" ]} ∧ self' = self.
Proof.
  unfold H_and_O.
  intros (_ & ? & [_ ->]%global_ok & Hrun)%bind_ok.
  apply bind_ok in Hrun as (_ & ? & [_ ->]%global_ok & Hrun).
  by apply ret_ok in Hrun as [-> ->].
Qed.

Lemma chemsys_elements_ok chemsys g (self : Self) elts self' :
  chemsys_elements chemsys g self = (Ok elts, self') →
  elts = list_to_set chemsys ∧ self' = self.
Proof.
  revert elts self'. induction chemsys as [|s l IH]; intros elts self'; simpl.
  - by intros [-> ->]%ret_ok.
  - intros (_ & ? & [_ ->]%global_ok & Hrun)%bind_ok.
    apply bind_ok in Hrun as (elts' & ? & [-> ->]%IH & Hrun).
    by apply ret_ok in Hrun as [-> ->].
Qed.

Lemma reference_compositions_ok (ion_data : list IonRecord) g (self : Self)
    comps self' :
  reference_compositions ion_data g self = (Ok comps, self') →
  comps = (λ d, Composition_new (Reference_Solid d)) <$> ion_data ∧ self' = self.
Proof.
  revert comps self'. induction ion_data as [|d l IH]; intros comps self'; simpl.
  - by intros [-> ->]%ret_ok.
  - intros (_ & ? & [_ ->]%global_ok & Hrun)%bind_ok.
    apply bind_ok in Hrun as (cs & ? & [-> ->]%IH & Hrun).
    by apply ret_ok in Hrun as [-> ->].
Qed.

(** The solid entry made of an entry that passes the filter. *)
Local Abbreviation solid_entry ion_ref_pd entry :=
  (mkPourbaixEntry
     (OfSolid (ComputedEntry_new (composition entry)
                 (get_form_energy ion_ref_pd entry) (entry_id entry)))
     None).

Lemma solid_loop_ok ion_ref_pd (extra_elts : gset Element)
    (l : list ComputedEntry) (pbx_entries : list PourbaixEntry) g (self : Self)
    pbx_entries' self' :
  solid_loop ion_ref_pd extra_elts l pbx_entries g self
    = (Ok pbx_entries', self') →
  self' = self ∧
  pbx_entries' = pbx_entries ++
    ((λ entry, solid_entry ion_ref_pd entry) <$>
       filter (λ entry,
                 let entry_elts : gset Element :=
                   list_to_set (comp_elements (composition entry)) in
                 entry_elts ⊈ {[ "H"; "O" ]} ∧ extra_elts ∩ entry_elts = ∅) l).
Proof.
  revert pbx_entries self. induction l as [|entry l IH]; intros pbx self; simpl.
  - intros [-> ->]%ret_ok. by rewrite app_nil_r.
  - intros (HO & ? & [-> ->]%H_and_O_ok & Hrun)%bind_ok.
    rewrite filter_cons.
    destruct (bool_decide (_ ⊆ _)) eqn:Hsub; simpl in Hrun.
    { apply bool_decide_eq_true in Hsub. destruct (IH _ _ Hrun) as [-> ->].
      by rewrite decide_False by (by intros [? ?]). }
    apply bool_decide_eq_false in Hsub.
    destruct (bool_decide (_ ≠ _)) eqn:Hcap; simpl in Hrun.
    { apply bool_decide_eq_true in Hcap. destruct (IH _ _ Hrun) as [-> ->].
      by rewrite decide_False by (by intros [? ?]). }
    apply bool_decide_eq_false in Hcap.
    apply bind_ok in Hrun as (_ & ? & [_ ->]%global_ok & Hrun).
    apply bind_ok in Hrun as (_ & ? & [_ ->]%global_ok & Hrun).
    apply IH in Hrun as [-> ->].
    rewrite decide_True by (split; [done|by apply dec_stable]).
    by rewrite <- app_assoc.
Qed.

(** *** The method as a whole *)

Lemma set_compatibility_ok arg g (self : Self) u self' :
  set_compatibility arg g self = (Ok u, self') →
  is_Some (solid_compat self') ∧ requests self' = requests self.
Proof.
  unfold set_compatibility. repeat case_match.
  all: intros (_ & ? & [_ ->]%global_ok & Hrun)%bind_ok.
  all: try done.
  all: unfold set_solid_compat in Hrun; injection Hrun as _ <-; by eauto.
Qed.

(** A call that returns has run the two loops on the values below. *)
Lemma get_pourbaix_entries_ok chemsys arg additional_entries g (self : Self)
    pbx_entries self' :
  get_pourbaix_entries_w_add_entries chemsys arg additional_entries g self
    = (Ok pbx_entries, self') →
  ∃ solid, solid_compat self' = Some solid ∧
    let ion_data := ion_data_of chemsys in
    let ion_ref_entries := ion_ref_entries_of solid ion_data in
    let ion_ref_pd := mkPhaseDiagram ion_ref_entries in
    ∃ ions,
      ion_loop ion_ref_entries ion_ref_pd (enumerate ion_data) [] g self'
        = (Ok ions, self') ∧
      solid_loop ion_ref_pd (extra_elts_of chemsys ion_data)
        (ion_ref_entries ++ additional_entries) ions g self'
        = (Ok pbx_entries, self').
Proof.
  unfold get_pourbaix_entries_w_add_entries. intros Hrun.
  apply bind_ok in Hrun as (_ & self1 & [[solid Hsolid] _]%set_compatibility_ok & Hrun).
  apply bind_ok in Hrun as (ion_data & self2 & Hreq & Hrun).
  injection Hreq as <- <-.
  apply bind_ok in Hrun as (comps & ? & [-> ->]%reference_compositions_ok & Hrun).
  apply bind_ok in Hrun as (_ & ? & [_ ->]%global_ok & Hrun).
  apply bind_ok in Hrun as (entries & self3 & Hreq & Hrun).
  injection Hreq as <- <-. simpl in Hrun.
  do 3 apply bind_ok in Hrun as (_ & ? & [_ ->]%global_ok & Hrun).
  apply bind_ok in Hrun as (solid' & ? & Hget & Hrun).
  unfold get_solid_compat in Hget. simpl in Hget. rewrite Hsolid in Hget.
  injection Hget as <- <-.
  do 3 apply bind_ok in Hrun as (_ & ? & [_ ->]%global_ok & Hrun).
  apply bind_ok in Hrun as (ions & self4 & Hions & Hrun).
  apply bind_ok in Hrun as (elts & ? & [-> ->]%chemsys_elements_ok & Hrun).
  apply bind_ok in Hrun as (HO & ? & [-> ->]%H_and_O_ok & Hrun).
  apply bind_ok in Hrun as (pbx & self5 & Hsolids & Hrun).
  apply ret_ok in Hrun as [-> ->].
  apply solid_loop_ok in Hsolids as Hself. destruct Hself as [<- _].
  apply ion_loop_run in Hions as Hself. destruct Hself as [-> _].
  exists solid. split; [done|]. by exists ions.
Qed.

(** The extra elements are those of the reference solids that are neither
    in the chemical system nor hydrogen or oxygen. *)
Lemma elem_of_extra_elts chemsys (ion_data : list IonRecord) (x : Element) :
  x ∈ extra_elts_of chemsys ion_data ↔
  (∃ d, d ∈ ion_data ∧ x ∈ comp_elements (Composition_new (Reference_Solid d))) ∧
  (x ∉ chemsys_symbols chemsys) ∧ x ≠ "H" ∧ x ≠ "O".
Proof.
  unfold extra_elts_of, ion_ref_elts_of.
  rewrite !elem_of_difference, !elem_of_list_to_set, elem_of_union,
    !elem_of_singleton, <- list_fmap_compose.
  rewrite list_elem_of_In, in_concat.
  setoid_rewrite <- list_elem_of_In. split.
  - intros [[(l & (d & -> & Hd)%list_elem_of_fmap & Hx) Hc] HO].
    split; [by exists d|]. split; [done|]. split; intros ->; apply HO; auto.
  - intros [(d & Hd & Hx) (Hc & HH & HOx)].
    split; [split; [|done]|by intros [|]].
    eexists. split; [apply list_elem_of_fmap; by exists d|done].
Qed.

(** C1: in the list a call returns, the entry at the index [n] of an ion
    record [i_d] is the ion entry with energy
    [i_d["Energy"] + solid_diff * correction_factor], where [stable_ref] is
    an entry of [ion_ref_entries] whose reduced formula is
    [i_d["Reference Solid"]] and whose ["e_above_hull"] no other such entry
    is below, [solid_diff] is
    [get_form_energy(stable_ref) - i_d["Reference solid energy"] * rf] with
    [rf] the reduced-composition factor of [stable_ref], and
    [correction_factor] is the amount of [i_d["Major_Elements"][0]] in the
    ion divided by its amount in [stable_ref]. *)
Theorem ion_entry_energy `{!FloatOrder} chemsys arg additional_entries g
    (self : Self) pbx_entries self' :
  get_pourbaix_entries_w_add_entries chemsys arg additional_entries g self
    = (Ok pbx_entries, self') →
  ∃ solid, solid_compat self' = Some solid ∧
    let ion_data := ion_data_of chemsys in
    let ion_ref_entries := ion_ref_entries_of solid ion_data in
    let ion_ref_pd := mkPhaseDiagram ion_ref_entries in
    ∀ (n : nat) i_d, ion_data !! n = Some i_d →
      ∃ (stable_ref : ComputedEntry) (hull : pyfloat) (elt : string)
        (correction_factor : pyfloat),
        stable_ref ∈ ion_ref_entries ∧
        reduced_formula (composition stable_ref) = Reference_Solid i_d ∧
        data stable_ref !! "e_above_hull" = Some hull ∧
        (∀ e h, e ∈ ion_ref_entries →
                reduced_formula (composition e) = Reference_Solid i_d →
                data e !! "e_above_hull" = Some h → flt h hull = false) ∧
        Major_Elements i_d !! 0%nat = Some elt ∧
        fdiv (amount (ion_composition (Ion_from_formula (Name i_d))) elt)
             (amount (composition stable_ref) elt) = Some correction_factor ∧
        let rf := reduced_factor (composition stable_ref) in
        let solid_diff :=
          fsub (get_form_energy ion_ref_pd stable_ref)
               (fmul (Reference_solid_energy i_d) rf) in
        pbx_entries !! n =
          Some (mkPourbaixEntry
                  (OfIon (mkIonEntry (Ion_from_formula (Name i_d))
                            (fadd (Energy i_d) (fmul solid_diff correction_factor))))
                  (Some ("ion-" +:+ pretty n))).
Proof.
  intros (solid & Hsolid & ions & Hions & Hsolids)%get_pourbaix_entries_ok.
  exists solid. split; [done|]. intros ion_data ion_ref_entries ion_ref_pd n i_d Hn.
  apply ion_loop_ok in Hions as (ions' & -> & Hions).
  apply solid_loop_ok in Hsolids as [_ ->].
  assert (enumerate ion_data !! n = Some (n, i_d)) as Henum.
  { unfold enumerate. by rewrite list_lookup_imap, Hn. }
  destruct (Forall2_lookup_l _ _ _ _ _ Hions Henum)
    as (entry & Hentry & stable_ref & hull & elt & cf & Hin & Hform & Hhull
        & Hmin & Helt & Hcf & ->).
  exists stable_ref, hull, elt, cf. repeat split; try done.
  simpl. by apply lookup_app_l_Some.
Qed.

(** C3: the list a call returns is, in this order, one ion entry per ion
    record, labelled ["ion-n"] with [n] the index of the record, and then
    one solid entry, with the formation energy the phase diagram gives, for
    each entry of [ion_ref_entries] followed by [additional_entries] whose
    element set is neither a subset of [{H, O}] nor meets the extra
    elements, those that come from the reference solids only. *)
Theorem pourbaix_entries_order chemsys arg additional_entries g (self : Self)
    pbx_entries self' :
  get_pourbaix_entries_w_add_entries chemsys arg additional_entries g self
    = (Ok pbx_entries, self') →
  ∃ solid, solid_compat self' = Some solid ∧
    let ion_data := ion_data_of chemsys in
    let ion_ref_entries := ion_ref_entries_of solid ion_data in
    let ion_ref_pd := mkPhaseDiagram ion_ref_entries in
    ∃ (extra_elts : gset Element) (ions : list PourbaixEntry),
      (∀ x, x ∈ extra_elts ↔
         (∃ d, d ∈ ion_data ∧
               x ∈ comp_elements (Composition_new (Reference_Solid d))) ∧
         (x ∉ chemsys_symbols chemsys) ∧ x ≠ "H" ∧ x ≠ "O") ∧
      length ions = length ion_data ∧
      (∀ (n : nat) entry, ions !! n = Some entry →
         ∃ ion_entry,
           entry = mkPourbaixEntry (OfIon ion_entry) (Some ("ion-" +:+ pretty n))) ∧
      pbx_entries = ions ++
        ((λ entry,
            mkPourbaixEntry
              (OfSolid (ComputedEntry_new (composition entry)
                          (get_form_energy ion_ref_pd entry) (entry_id entry)))
              None) <$>
           filter (λ entry,
                     let entry_elts : gset Element :=
                       list_to_set (comp_elements (composition entry)) in
                     entry_elts ⊈ {[ "H"; "O" ]} ∧ extra_elts ∩ entry_elts = ∅)
             (ion_ref_entries ++ additional_entries)).
Proof.
  intros (solid & Hsolid & ions & Hions & Hsolids)%get_pourbaix_entries_ok.
  exists solid. split; [done|]. intros ion_data ion_ref_entries ion_ref_pd.
  apply ion_loop_run in Hions as (_ & ions' & -> & Hions).
  apply solid_loop_ok in Hsolids as [_ ->].
  exists (extra_elts_of chemsys ion_data), ions'.
  split; [apply elem_of_extra_elts|].
  split. { apply Forall2_length in Hions. unfold enumerate in Hions.
           by rewrite length_imap in Hions. }
  split; [|done]. intros n entry Hn.
  destruct (Forall2_lookup_r _ _ _ _ _ Hions Hn) as ([n' i_d] & Henum & Hentry).
  unfold enumerate in Henum. rewrite list_lookup_imap in Henum.
  destruct (ion_data_of chemsys !! n); [|done]. by injection Henum as <- <-.
Qed.

(** *** Which exceptions the code raises *)

Lemma raises_only_ret {A} allowed (a : A) : raises_only allowed (mret a : M A).
Proof. by intros g self e. Qed.

Lemma raises_only_bind {A B} allowed (m : M A) (f : A → M B) :
  raises_only allowed m → (∀ a, raises_only allowed (f a)) →
  raises_only allowed (m ≫= f).
Proof.
  intros Hm Hf g self e. rewrite bind_run.
  destruct (m g self) as [[a|e'] self1] eqn:Hrun.
  - apply Hf.
  - simpl. intros [= <-]. apply (Hm g self). by rewrite Hrun.
Qed.

Lemma raises_only_global (allowed : exn → Prop) name :
  allowed (NameError name) → raises_only (A:=unit) (Compatibility:=Compatibility) allowed (global name).
Proof. intros Hn g self e. unfold global. case_decide; simpl; congruence. Qed.

Lemma raises_only_raise {A} (allowed : exn → Prop) e :
  allowed e → raises_only (A:=A) (Compatibility:=Compatibility) allowed (raise e).
Proof. intros He g self e'. simpl. congruence. Qed.

Lemma raises_only_lift {A} (allowed : exn → Prop) (r : result A) :
  (∀ e, r = Raise e → allowed e) →
  raises_only (Compatibility:=Compatibility) allowed (lift r).
Proof. intros Hr g self e. simpl. auto. Qed.

Lemma raises_only_weaken {A} (allowed allowed' : exn → Prop) (m : M A) :
  (∀ e, allowed e → allowed' e) → raises_only allowed m → raises_only allowed' m.
Proof. intros Himpl Hm g self e Hrun. eauto. Qed.

Lemma comprehension_raise {A B} (f : A → result B) l e :
  comprehension f l = Raise e → ∃ x, x ∈ l ∧ f x = Raise e.
Proof.
  induction l as [|x l IH]; simpl; [done|].
  destruct (f x) as [y|e'] eqn:Hx.
  - destruct (comprehension f l); [done|]. intros [= ->].
    destruct IH as (x' & ? & ?); [done|]. exists x'. split; [by right|done].
  - intros [= ->]. exists x. split; [by left|done].
Qed.

Lemma sorted_by_hull_raise (refs : list ComputedEntry) e :
  sorted_by_hull refs = Raise e → e = KeyError "e_above_hull".
Proof.
  unfold sorted_by_hull.
  destruct (comprehension _ refs) as [keyed|e'] eqn:Hkeyed; [done|].
  simpl. intros [= ->]. apply comprehension_raise in Hkeyed as (x & _ & Hx).
  unfold e_above_hull in Hx. destruct (data x !! "e_above_hull"); [done|]. by injection Hx.
Qed.

Lemma getitem_raise {A} (l : list A) i e : getitem l i = Raise e → e = IndexError.
Proof. unfold getitem. destruct (l !! i); congruence. Qed.

Lemma truediv_raise x y e : truediv x y = Raise e → e = ZeroDivisionError.
Proof. unfold truediv. destruct (fdiv x y); congruence. Qed.

(** The only [ValueError] the code after the compatibility check raises is
    that of the missing reference solid. *)
Local Abbreviation no_other_ValueError :=
  (λ e : exn, ∀ msg, e = ValueError msg →
                     msg = "Reference solid not contained in entry list").

Lemma make_request_raises allowed url :
  raises_only (Compatibility:=Compatibility) allowed (_make_request url).
Proof. by intros g self e. Qed.

Lemma get_entries_in_chemsys_raises allowed elts property_data compatible_only :
  raises_only (Compatibility:=Compatibility) allowed
    (get_entries_in_chemsys elts property_data compatible_only).
Proof. by intros g self e. Qed.

Lemma set_solid_compat_raises allowed (c : Compatibility) :
  raises_only allowed (set_solid_compat c).
Proof. by intros g self e. Qed.

Lemma get_solid_compat_raises (allowed : exn → Prop) :
  allowed (AttributeError "solid_compat") →
  raises_only (Compatibility:=Compatibility) allowed get_solid_compat.
Proof.
  intros Ha g self e. unfold get_solid_compat.
  destruct (solid_compat self); simpl; congruence.
Qed.

Ltac raises_only_step :=
  cbv zeta;
  lazymatch goal with
  | |- raises_only _ (mret _) => apply raises_only_ret
  | |- raises_only _ (global _) => apply raises_only_global; done
  | |- raises_only _ (raise _) => apply raises_only_raise; congruence
  | |- raises_only _ (lift (sorted_by_hull _)) =>
      apply raises_only_lift; by intros ? ->%sorted_by_hull_raise
  | |- raises_only _ (lift (getitem _ _)) =>
      apply raises_only_lift; by intros ? ->%getitem_raise
  | |- raises_only _ (lift (truediv _ _)) =>
      apply raises_only_lift; by intros ? ->%truediv_raise
  | |- raises_only _ (_make_request _) => apply make_request_raises
  | |- raises_only _ (get_entries_in_chemsys _ _ _) =>
      apply get_entries_in_chemsys_raises
  | |- raises_only _ get_solid_compat => apply get_solid_compat_raises; done
  | |- raises_only _ (set_solid_compat _) => apply set_solid_compat_raises
  | |- raises_only _ (_ ≫= _) => apply raises_only_bind; [|intros ?]
  end.

Ltac raises_only := repeat raises_only_step.

Lemma ion_body_raises ion_ref_entries ion_ref_pd (n : nat) i_d pbx_entries :
  raises_only no_other_ValueError
    (ion_body ion_ref_entries ion_ref_pd n i_d pbx_entries).
Proof.
  unfold ion_body. raises_only. case_match; raises_only.
Qed.

(** With a reference entry in the list, the body raises no [ValueError]. *)
Lemma ion_body_no_ValueError ion_ref_entries ion_ref_pd (n : nat) i_d pbx_entries :
  reference_entries ion_ref_entries (Reference_Solid i_d) ≠ [] →
  raises_only (λ e, ∀ msg, e ≠ ValueError msg)
    (ion_body ion_ref_entries ion_ref_pd n i_d pbx_entries).
Proof.
  intros Hrefs. unfold ion_body. raises_only. case_match; [done|]. raises_only.
Qed.

Lemma ion_loop_raises ion_ref_entries ion_ref_pd l pbx_entries :
  raises_only no_other_ValueError
    (ion_loop ion_ref_entries ion_ref_pd l pbx_entries).
Proof.
  revert pbx_entries. induction l as [|[n i_d] l IH]; intros pbx; simpl.
  - apply raises_only_ret.
  - apply raises_only_bind; [apply ion_body_raises|auto].
Qed.

Lemma H_and_O_raises allowed :
  (∀ name, allowed (NameError name)) →
  raises_only (Compatibility:=Compatibility) allowed H_and_O.
Proof. intros Hn. unfold H_and_O. raises_only. Qed.

Lemma chemsys_elements_raises allowed chemsys :
  (∀ name, allowed (NameError name)) →
  raises_only (Compatibility:=Compatibility) allowed (chemsys_elements chemsys).
Proof.
  intros Hn. induction chemsys as [|s l IH]; simpl; raises_only. apply IH.
Qed.

Lemma reference_compositions_raises allowed (ion_data : list IonRecord) :
  (∀ name, allowed (NameError name)) →
  raises_only (Compatibility:=Compatibility) allowed
    (reference_compositions ion_data).
Proof.
  intros Hn. induction ion_data as [|d l IH]; simpl; raises_only. apply IH.
Qed.

Lemma solid_loop_raises allowed ion_ref_pd extra_elts (l : list ComputedEntry)
    (pbx_entries : list PourbaixEntry) :
  (∀ name, allowed (NameError name)) →
  raises_only (Compatibility:=Compatibility) allowed
    (solid_loop ion_ref_pd extra_elts l pbx_entries).
Proof.
  intros Hn. revert pbx_entries. induction l as [|entry l IH]; intros pbx; simpl.
  - apply raises_only_ret.
  - apply raises_only_bind; [by apply H_and_O_raises|intros HO].
    case_match; raises_only; apply IH.
Qed.

(** The three ways the argument passes the check. *)
Local Abbreviation accepted arg :=
  (arg = ArgStr "MaterialsProjectCompatibility" ∨
   arg = ArgStr "MaterialsProject2020Compatibility" ∨
   ∃ c : Compatibility, arg = ArgInstance c).

Lemma arg_eq_true (arg : SolidCompatArg) s :
  arg_eq arg s = true ↔ arg = ArgStr s.
Proof.
  destruct arg as [s'| |]; simpl; [|done..].
  rewrite String.eqb_eq. split; congruence.
Qed.

(** The compatibility check, in a namespace that has the module's names. *)
Lemma set_compatibility_run (arg : SolidCompatArg) g (self : Self) :
  module_globals ⊆ g →
  (accepted arg ∧
   ∃ c, set_compatibility arg g self = (Ok (), mkSelf (Some c) (requests self))) ∨
  (¬ accepted arg ∧
   set_compatibility arg g self = (Raise (ValueError solid_compat_error), self)).
Proof.
  intros Hg. unfold set_compatibility.
  destruct (arg_eq arg "MaterialsProjectCompatibility") eqn:H1'.
  { apply arg_eq_true in H1' as ->. left. split; [by left|].
    rewrite bind_run, global_elem by (apply Hg; set_solver). by eexists. }
  destruct (arg_eq arg "MaterialsProject2020Compatibility") eqn:H2'.
  { apply arg_eq_true in H2' as ->. left. split; [by right; left|].
    rewrite bind_run, global_elem by (apply Hg; set_solver). by eexists. }
  rewrite bind_run, global_elem by (apply Hg; set_solver).
  destruct arg as [s|c|].
  - right. split; [|done]. intros [[= ->]|[[= ->]|[c [=]]]].
    + by rewrite (proj2 (arg_eq_true _ _)) in H1'.
    + by rewrite (proj2 (arg_eq_true _ _)) in H2'.
  - left. split; [right; right; by exists c|by eexists].
  - right. split; [|done]. by intros [|[|[c ?]]].
Qed.

Lemma set_compatibility_raises (arg : SolidCompatArg) :
  accepted arg →
  raises_only (Compatibility:=Compatibility) no_other_ValueError
    (set_compatibility arg).
Proof.
  intros Harg. unfold set_compatibility.
  repeat case_match; raises_only; exfalso.
  - destruct Harg as [[= ->]|[[= ->]|[c [=]]]]; simpl in *; congruence.
  - by destruct Harg as [|[|[c ?]]].
Qed.

Lemma get_pourbaix_entries_raises chemsys arg additional_entries :
  accepted arg →
  raises_only no_other_ValueError
    (get_pourbaix_entries_w_add_entries chemsys arg additional_entries).
Proof.
  intros Harg. unfold get_pourbaix_entries_w_add_entries.
  raises_only.
  - by apply set_compatibility_raises.
  - by apply reference_compositions_raises.
  - apply ion_loop_raises.
  - by apply chemsys_elements_raises.
  - by apply H_and_O_raises.
  - by apply solid_loop_raises.
Qed.

(** C10: in a namespace that has the module's names, the call raises the
    [ValueError] that names the accepted options exactly when [solid_compat]
    is neither of the two strings nor an instance of [Compatibility], and
    then [self] is as before the call: no attribute was set and no request
    was sent.  A call that raises returns no list. *)
Theorem solid_compat_validation chemsys arg additional_entries g (self : Self) :
  module_globals ⊆ g →
  let run :=
    get_pourbaix_entries_w_add_entries chemsys arg additional_entries g self in
  (run.1 = Raise (ValueError solid_compat_error) ↔
     arg ≠ ArgStr "MaterialsProjectCompatibility" ∧
     arg ≠ ArgStr "MaterialsProject2020Compatibility" ∧
     ∀ c : Compatibility, arg ≠ ArgInstance c) ∧
  (run.1 = Raise (ValueError solid_compat_error) → run.2 = self).
Proof.
  intros Hg run.
  assert (run.1 = Raise (ValueError solid_compat_error) ↔ ¬ accepted arg)
    as Hiff.
  { split.
    - intros Hrun Harg.
      apply (get_pourbaix_entries_raises chemsys arg additional_entries Harg)
        in Hrun.
      by specialize (Hrun _ eq_refl).
    - intros Harg. subst run. unfold get_pourbaix_entries_w_add_entries.
      rewrite bind_run.
      by destruct (set_compatibility_run arg g self Hg) as [[? _]|[_ ->]]. }
  split.
  - rewrite Hiff. split.
    + intros Harg. repeat split; [intros ->..|intros c ->]; apply Harg; eauto.
    + intros (Ha & Hb & Hc) [->|[->|[c ->]]]; [done..|by eapply Hc].
  - intros Hrun%Hiff. subst run. unfold get_pourbaix_entries_w_add_entries.
    rewrite bind_run.
    by destruct (set_compatibility_run arg g self Hg) as [[? _]|[_ ->]].
Qed.

(** *** The names the module does not bind *)

Lemma module_globals_missing :
  Forall (λ name, name ∉ module_globals)
    ["itertools"; "warnings"; "Element"; "ComputedEntry"].
Proof. repeat constructor; by apply (bool_decide_unpack _); vm_compute. Qed.

Lemma reference_compositions_elem (ion_data : list IonRecord) g (self : Self) :
  "Composition" ∈ g →
  reference_compositions ion_data g self
  = (Ok ((λ d, Composition_new (Reference_Solid d)) <$> ion_data), self).
Proof.
  intros Hg. induction ion_data as [|d l IH]; simpl; [done|].
  by rewrite bind_run, global_elem, bind_run, IH.
Qed.

(** C2: with the namespace the module itself sets up, a call whose
    [solid_compat] passes the check raises [NameError] for [itertools], the
    first of the four names ([itertools], [warnings], [Element],
    [ComputedEntry]) the body uses and the module never binds; so no call
    returns a list. *)
Theorem missing_names_raise chemsys (arg : SolidCompatArg) additional_entries
    (self : Self) :
  let run :=
    get_pourbaix_entries_w_add_entries chemsys arg additional_entries
      module_globals self in
  Forall (λ name, name ∉ module_globals)
    ["itertools"; "warnings"; "Element"; "ComputedEntry"] ∧
  ((arg = ArgStr "MaterialsProjectCompatibility" ∨
    arg = ArgStr "MaterialsProject2020Compatibility" ∨
    ∃ c : Compatibility, arg = ArgInstance c) →
   run.1 = Raise (NameError "itertools")) ∧
  is_ok run.1 = false.
Proof.
  intros run. split; [apply module_globals_missing|].
  assert (accepted arg → run.1 = Raise (NameError "itertools")) as Hname.
  { intros Harg. subst run. unfold get_pourbaix_entries_w_add_entries.
    rewrite bind_run.
    destruct (set_compatibility_run arg module_globals self) as [[_ [c ->]]|[? _]];
      [done| |done].
    cbv zeta. rewrite bind_run. unfold _make_request at 1.
    rewrite bind_run, reference_compositions_elem by set_solver.
    rewrite bind_run, global_not_elem; [done|].
    by apply (bool_decide_unpack _); vm_compute. }
  split; [done|].
  destruct (set_compatibility_run arg module_globals self) as [[Harg _]|[_ Hrun]];
    [done|by rewrite (Hname Harg)|].
  subst run. unfold get_pourbaix_entries_w_add_entries.
  by rewrite bind_run, Hrun.
Qed.

(** *** The reference solid of an ion *)

Lemma reference_entries_nil (ion_ref_entries : list ComputedEntry) name :
  reference_entries ion_ref_entries name = [] ↔
  ∀ e, e ∈ ion_ref_entries → reduced_formula (composition e) ≠ name.
Proof.
  unfold reference_entries. split.
  - intros Hnil e He Hform.
    assert (e ∈ filter (λ e, reduced_formula (composition e) = name)
                  ion_ref_entries) as Hin by by apply list_elem_of_filter.
    rewrite Hnil in Hin. by apply elem_of_nil in Hin.
  - intros Hall. induction ion_ref_entries as [|e l IH]; [done|].
    rewrite filter_cons, decide_False by (apply Hall; by left).
    apply IH. intros e' He'. apply Hall. by right.
Qed.

Lemma bind_raise {A B} (m : M A) (f : A → M B) g self e self' :
  (m ≫= f) g self = (Raise e, self') →
  m g self = (Raise e, self') ∨
  ∃ a self1, m g self = (Ok a, self1) ∧ f a g self1 = (Raise e, self').
Proof.
  rewrite bind_run. destruct (m g self) as [[a|e'] self1]; [eauto|].
  intros [= -> ->]. by left.
Qed.

Lemma raises_only_run {A} allowed (m : M A) g self e self' :
  raises_only allowed m → m g self = (Raise e, self') → allowed e.
Proof. intros Hm Hrun. apply (Hm g self). by rewrite Hrun. Qed.

Lemma no_ValueError_run {A} (m : M A) g self msg self' :
  raises_only (λ e, ∀ msg, e ≠ ValueError msg) m →
  m g self ≠ (Raise (ValueError msg), self').
Proof. intros Hm Hrun. exact (raises_only_run _ _ _ _ _ _ Hm Hrun msg eq_refl). Qed.

(** A [ValueError] out of the ion loop comes from a record without a
    reference entry. *)
Lemma ion_loop_raise_ValueError ion_ref_entries ion_ref_pd
    (l : list (nat * IonRecord)) pbx_entries g (self : Self) msg self' :
  ion_loop ion_ref_entries ion_ref_pd l pbx_entries g self
    = (Raise (ValueError msg), self') →
  ∃ p, p ∈ l ∧ reference_entries ion_ref_entries (Reference_Solid p.2) = [].
Proof.
  revert pbx_entries self. induction l as [|[n i_d] l IH]; intros pbx self; simpl.
  - done.
  - intros [Hbody|(pbx1 & self1 & _ & Hloop)]%bind_raise.
    + exists (n, i_d). split; [by left|]. simpl.
      destruct (decide (reference_entries ion_ref_entries (Reference_Solid i_d) = []))
        as [|Hne]; [done|]. exfalso.
      by eapply no_ValueError_run; [apply ion_body_no_ValueError|].
    + apply IH in Hloop as (p & Hp & Hnil). exists p. split; [by right|done].
Qed.

(** When the call raises the [ValueError] of the missing reference solid,
    the ion reference data holds a record whose reference solid no entry of
    [ion_ref_entries] has as its reduced formula. *)
Lemma missing_reference_solid_raised chemsys (arg : SolidCompatArg)
    additional_entries g (self : Self) self' :
  get_pourbaix_entries_w_add_entries chemsys arg additional_entries g self
    = (Raise (ValueError "Reference solid not contained in entry list"), self') →
  ∃ solid i_d,
    solid_compat (set_compatibility arg g self).2 = Some solid ∧
    i_d ∈ ion_data_of chemsys ∧
    ∀ e, e ∈ ion_ref_entries_of solid (ion_data_of chemsys) →
         reduced_formula (composition e) ≠ Reference_Solid i_d.
Proof.
  assert (∀ name (s s' : Self) msg,
            global name g s ≠ (Raise (ValueError msg), s')) as Hglobal.
  { intros name s s' msg. apply no_ValueError_run.
    by apply raises_only_global. }
  unfold get_pourbaix_entries_w_add_entries. intros Hrun.
  apply bind_raise in Hrun as [Hrun|([] & self1 & Hset & Hrun)].
  { exfalso. unfold set_compatibility in Hrun.
    repeat case_match;
      apply bind_raise in Hrun as [Hrun|(_ & ? & [_ ->]%global_ok & Hrun)];
      try (by apply Hglobal in Hrun); by injection Hrun. }
  rewrite Hset. simpl.
  apply set_compatibility_ok in Hset as [[solid Hsolid] _].
  apply bind_raise in Hrun as [[=]|(ion_data & self2 & Hreq & Hrun)].
  injection Hreq as <- <-.
  apply bind_raise in Hrun
    as [Hrun|(comps & ? & [-> ->]%reference_compositions_ok & Hrun)].
  { exfalso. by eapply no_ValueError_run; [apply reference_compositions_raises|]. }
  apply bind_raise in Hrun as [Hrun|(_ & ? & [_ ->]%global_ok & Hrun)];
    [by apply Hglobal in Hrun|].
  apply bind_raise in Hrun as [[=]|(entries & self3 & Hreq & Hrun)].
  injection Hreq as <- <-. simpl in Hrun.
  do 3 (apply bind_raise in Hrun as [Hrun|(_ & ? & [_ ->]%global_ok & Hrun)];
        [by apply Hglobal in Hrun|]).
  apply bind_raise in Hrun as [Hrun|(solid' & ? & Hget & Hrun)].
  { unfold get_solid_compat in Hrun. simpl in Hrun. by rewrite Hsolid in Hrun. }
  unfold get_solid_compat in Hget. simpl in Hget. rewrite Hsolid in Hget.
  injection Hget as <- <-.
  do 3 (apply bind_raise in Hrun as [Hrun|(_ & ? & [_ ->]%global_ok & Hrun)];
        [by apply Hglobal in Hrun|]).
  apply bind_raise in Hrun as [Hrun|(ions & self4 & Hions & Hrun)].
  - apply ion_loop_raise_ValueError in Hrun as ([n i_d] & Hp & Hnil).
    exists solid, i_d. split; [done|]. split.
    + unfold enumerate in Hp. apply list_elem_of_lookup in Hp as [i Hi].
      rewrite list_lookup_imap in Hi.
      destruct (make_request _ !! i) as [d|] eqn:Hd; [|done].
      injection Hi as <- <-. by eapply list_elem_of_lookup_2.
    + by apply reference_entries_nil.
  - exfalso.
    apply bind_raise in Hrun as [Hrun|(elts & ? & _ & Hrun)].
    { by eapply no_ValueError_run; [apply chemsys_elements_raises|]. }
    apply bind_raise in Hrun as [Hrun|(HO & ? & _ & Hrun)].
    { by eapply no_ValueError_run; [apply H_and_O_raises|]. }
    apply bind_raise in Hrun as [Hrun|(pbx & ? & _ & [=])].
    by eapply no_ValueError_run; [apply solid_loop_raises|].
Qed.

(** C4: when the loop body runs for the ion record [i_d] (the name [Ion]
    being bound), it raises [ValueError("Reference solid not contained in
    entry list")] if no entry of [ion_ref_entries] has the reduced formula
    [i_d["Reference Solid"]]; otherwise it raises no [ValueError], and the
    entry it appends when it completes has the energy of the ion aligned
    against an entry with that reduced formula. *)
Theorem reference_solid_check `{!FloatOrder} (ion_ref_entries : list ComputedEntry)
    ion_ref_pd (n : nat) i_d (pbx_entries : list PourbaixEntry) g (self : Self) :
  "Ion" ∈ g →
  let run := ion_body ion_ref_entries ion_ref_pd n i_d pbx_entries g self in
  ((∀ e, e ∈ ion_ref_entries →
         reduced_formula (composition e) ≠ Reference_Solid i_d) →
   run = (Raise (ValueError "Reference solid not contained in entry list"), self)) ∧
  ((∃ e, e ∈ ion_ref_entries ∧
         reduced_formula (composition e) = Reference_Solid i_d) →
   (∀ msg, run.1 ≠ Raise (ValueError msg)) ∧
   ∀ pbx_entries', run.1 = Ok pbx_entries' →
     ∃ entry, pbx_entries' = pbx_entries ++ [entry] ∧
              aligned ion_ref_entries ion_ref_pd n i_d entry).
Proof.
  intros Hg run. split.
  - intros Hnone. apply reference_entries_nil in Hnone.
    subst run. unfold ion_body.
    by rewrite bind_run, global_elem, Hnone.
  - intros (e & He & Hform).
    assert (reference_entries ion_ref_entries (Reference_Solid i_d) ≠ [])
      as Hrefs.
    { intros Hnil. by apply (proj1 (reference_entries_nil _ _) Hnil e). }
    split.
    + intros msg Hrun.
      by apply (ion_body_no_ValueError _ ion_ref_pd n _ pbx_entries Hrefs g self
                  _ Hrun msg).
    + intros pbx' Hrun. apply (ion_body_ok ion_ref_entries ion_ref_pd n i_d
                                 pbx_entries g self pbx' run.2).
      fold run. rewrite <- Hrun. by destruct run.
Qed.

End MpresterOcpFacts.

(** ** The instances *)

Section FixtureFacts.
Import Py Fixture.

Lemma Q_lt_asym (x y : Q) : Q_lt x y = true → Q_lt y x = false.
Proof.
  unfold Q_lt. rewrite negb_true_iff, negb_false_iff, Qle_bool_iff.
  intros Hyx. apply Qlt_le_weak, Qnot_le_lt. intros Hle%Qle_bool_iff. congruence.
Qed.

Lemma Q_lt_negtrans (x y z : Q) :
  Q_lt x y = false → Q_lt y z = false → Q_lt x z = false.
Proof.
  unfold Q_lt. rewrite !negb_false_iff, !Qle_bool_iff.
  intros Hyx Hzy. by eapply Qle_trans.
Qed.

#[export] Instance Q_float_order : @FloatOrder Q_float.
Proof. split; [exact Q_lt_asym|exact Q_lt_negtrans]. Qed.

End FixtureFacts.

(** ** The functions at concrete inputs *)

Section Evaluations.
Import Py GetEntriesUtils Specified Fixture.

(** C6, at [maximum_pages = 1] and a server that always has a further page:
    the call sends two queries, one more than the bound, and returns both
    pages. *)
Theorem get_all_entries_exceeds_maximum_pages :
  get_all_entries (H0:=endless) 5 (Pages 1) 100 []
  = (Some [iron 0; iron 1],
     [ [("limit", KwInt 100); ("offset", KwInt 0);
        ("filter", KwStr "stability <= 0.1 AND delta_e <= 0 AND ntypes < 4")];
       [("limit", KwInt 100); ("offset", KwInt 100);
        ("filter", KwStr "stability <= 0.1 AND delta_e <= 0 AND ntypes < 4")] ]).
Proof. reflexivity. Qed.

(** C5, at a server with two pages: the first page carries a ["next"] link,
    yet the call sends a single query and returns the first page only. *)
Theorem get_icsd_entries_first_page_only :
  truthy (links_next (oqmd_phases (QMPYRester:=two_pages) 0 [])) = true ∧
  get_icsd_entries (H0:=two_pages) Inf 100 []
  = ([iron 0], [[("limit", KwInt 100); ("offset", KwInt 0); ("icsd", KwStr "T")]]).
Proof. split; reflexivity. Qed.

(** C9 as worded fails for a site string with two consecutive spaces: read
    as whitespace-separated tokens it gives iron at (0, 0, 0); the code
    splits at every space, finds ["@"] at index 2 and raises. *)
Lemma get_ase_object_two_spaces :
  let s := mkStructure (mkLattice cubic_cell) ["Fe"] [[0%Q; 0%Q; 0%Q]] in
  get_ase_object_as_specified iron_two_spaces
  = Ok (get_atoms s, set_pmg_struct s (set_atoms_obj (get_atoms s) iron_two_spaces)) ∧
  get_ase_object iron_two_spaces
  = Raise (ValueError "could not convert string to float: @").
Proof. split; reflexivity. Qed.

End Evaluations.

(** ** Worked examples

    Each theorem that has a premise, applied at one of the instances. *)

Section Examples.
Import Py GetEntriesUtils MpresterOcp Specified Fixture.

(** C8 at two iron phases and an empty disk. *)
Lemma write_data_rows_witness :
  Forall (λ entry, is_ok (get_ase_object entry) = true) [iron 1; iron 2] ∧
  ∃ rows entries',
    write_data [iron 1; iron 2] "oqmd.db" ∅
    = Ok (<["oqmd.db" := default [] ((∅ : Disk) !! "oqmd.db") ++ rows]> ∅, entries') ∧
    Forall2 (λ entry row,
               (∃ entry', get_ase_object entry = Ok (row_atoms row, entry')) ∧
               row_source row = "oqmd" ∧
               row_bulk_id row = "oqmd-" +:+ pretty (GetEntriesUtils.entry_id entry) ∧
               row_formation_energy row = delta_e entry) [iron 1; iron 2] rows.
Proof.
  assert (Forall (λ entry, is_ok (get_ase_object entry) = true) [iron 1; iron 2])
    as Hok by (repeat constructor).
  split; [exact Hok|].
  exact (write_data_rows [iron 1; iron 2] "oqmd.db" ∅ Hok).
Defined.

(** C9 at the iron phase, whose site is [Fe @ 0 0 0]. *)
Lemma get_ase_object_tokens_witness :
  let s := mkStructure (mkLattice cubic_cell) ["Fe"] [[0%Q; 0%Q; 0%Q]] in
  ∃ entry',
    get_ase_object (iron 3) = Ok (get_atoms s, entry') ∧
    atoms_obj entry' = Some (get_atoms s) ∧
    pmg_struct entry' = Some s.
Proof.
  apply (get_ase_object_tokens (iron 3) [["Fe"; "@"; "0"; "0"; "0"]]
           [[0%Q; 0%Q; 0%Q]]).
  - repeat constructor; done.
  - repeat constructor.
Defined.

Lemma sulfur_run_returns : sulfur_run = (Ok sulfur_entries, sulfur_self).
Proof. vm_compute. reflexivity. Defined.

(** C1 at the sulfur system: the sulfate ion is aligned against one of the
    two sodium sulfate entries. *)
Lemma ion_entry_energy_witness :
  ∃ solid, solid_compat sulfur_self = Some solid ∧
    let ion_data := ion_data_of (ChemStr "S") in
    let ion_ref_entries := ion_ref_entries_of solid ion_data in
    let ion_ref_pd := mkPhaseDiagram ion_ref_entries in
    ∀ (n : nat) i_d, ion_data !! n = Some i_d →
      ∃ (stable_ref : @ComputedEntry Q_float Formula) (hull : Q) (elt : string)
        (correction_factor : Q),
        stable_ref ∈ ion_ref_entries ∧
        reduced_formula (composition stable_ref) = Reference_Solid i_d ∧
        data stable_ref !! "e_above_hull" = Some hull ∧
        (∀ e h, e ∈ ion_ref_entries →
                reduced_formula (composition e) = Reference_Solid i_d →
                data e !! "e_above_hull" = Some h → Q_lt h hull = false) ∧
        Major_Elements i_d !! 0%nat = Some elt ∧
        Q_div (amount (ion_composition (Ion_from_formula (Name i_d))) elt)
              (amount (composition stable_ref) elt) = Some correction_factor ∧
        sulfur_entries !! n =
          Some (mkPourbaixEntry
                  (OfIon (mkIonEntry (Ion_from_formula (Name i_d))
                            (Energy i_d +
                             (get_form_energy ion_ref_pd stable_ref
                              - Reference_solid_energy i_d
                                * reduced_factor (composition stable_ref))
                             * correction_factor)%Q))
                  (Some ("ion-" +:+ pretty n))).
Proof.
  exact (ion_entry_energy (ChemStr "S")
           (ArgStr "MaterialsProject2020Compatibility") [] patched_globals
           fresh_self sulfur_entries sulfur_self sulfur_run_returns).
Defined.

(** C3 at the sulfur system: one ion entry, then the solids that hold
    sulfur and no sodium. *)
Lemma pourbaix_entries_order_witness :
  ∃ (ions solids : list (@PourbaixEntry Q_float Formula string)),
    sulfur_entries = ions ++ solids ∧ length ions = 1%nat ∧
    length solids = 2%nat.
Proof.
  destruct (pourbaix_entries_order (ChemStr "S")
              (ArgStr "MaterialsProject2020Compatibility") [] patched_globals
              fresh_self sulfur_entries sulfur_self sulfur_run_returns)
    as (solid & Hsolid & extra_elts & ions & Hextra & Hlen & Hlabel & Hlist).
  eexists ions, _. split; [exact Hlist|]. split; [exact Hlen|].
  apply (f_equal length) in Hlist. rewrite length_app, Hlen in Hlist.
  simpl in Hlist. injection Hlist as Hlist. symmetry. exact Hlist.
Defined.

(** C4 at the chloride ion, whose reference solid is missing, and at the
    sulfate ion, whose reference solid is served. *)
Lemma reference_solid_check_witness :
  ion_body sulfur_ref_entries sulfur_pd 0 chloride [] module_globals fresh_self
  = (Raise (ValueError "Reference solid not contained in entry list"), fresh_self) ∧
  ∀ msg,
    (ion_body sulfur_ref_entries sulfur_pd 0 sulfate [] module_globals
       fresh_self).1 ≠ Raise (ValueError msg).
Proof.
  assert ("Ion" ∈ module_globals) as Hion
    by (apply (bool_decide_unpack _); vm_compute; exact I).
  split.
  - apply (proj1 (reference_solid_check sulfur_ref_entries sulfur_pd 0
                    chloride [] module_globals fresh_self Hion)).
    apply Forall_forall. repeat constructor; discriminate.
  - apply (proj2 (reference_solid_check sulfur_ref_entries sulfur_pd 0
                    sulfate [] module_globals fresh_self Hion)).
    exists (solid "Na2SO4" "mp-1" 2%Q (-12)%Q). split; [by left|reflexivity].
Defined.

(** C2 at the default scheme. *)
Lemma missing_names_raise_witness :
  (get_pourbaix_entries_w_add_entries (ChemStr "S")
     (ArgStr "MaterialsProject2020Compatibility") [] module_globals
     fresh_self).1
  = Raise (NameError "itertools").
Proof.
  apply (missing_names_raise (ChemStr "S")
           (ArgStr "MaterialsProject2020Compatibility") [] fresh_self).
  right. left. reflexivity.
Defined.

(** C10 at an argument that is neither a string nor an instance. *)
Lemma solid_compat_validation_witness :
  get_pourbaix_entries_w_add_entries (ChemStr "S") ArgOther [] patched_globals
    fresh_self
  = (Raise (ValueError solid_compat_error), fresh_self).
Proof.
  assert (module_globals ⊆ patched_globals) as Hg
    by (apply (bool_decide_unpack _); vm_compute; exact I).
  destruct (solid_compat_validation (ChemStr "S") ArgOther [] patched_globals
              fresh_self Hg) as [Hiff Hself].
  assert ((get_pourbaix_entries_w_add_entries (ChemStr "S") ArgOther []
             patched_globals fresh_self).1
          = Raise (ValueError solid_compat_error)) as Hraise.
  { apply Hiff. repeat split; discriminate. }
  specialize (Hself Hraise).
  destruct (get_pourbaix_entries_w_add_entries _ _ _ _ _) as [r self'].
  simpl in *. rewrite Hraise, Hself. reflexivity.
Defined.

End Examples.

(** ** [get_entries_utils.py]: edge cases, errors and composition *)

Section PaginationFacts.
Import Py GetEntriesUtils.
Context `{PyFloat} `{!QMPYRester}.

(** The page the server gives to the [i]-th query of a run that starts with
    the log [log] and the batch number [batch_num]. *)
Local Abbreviation page page_limit log batch_num i :=
  (oqmd_phases (length log + i)
     (all_entries_kwargs page_limit (batch_num + Z.of_nat i))).

(** The test at the end of an iteration. *)
Local Abbreviation goes_on maximum_pages page_limit log batch_num i :=
  (truthy (links_next (page page_limit log batch_num i))
   && le_max_pages (batch_num + Z.of_nat i + 1) maximum_pages).

(** The loop runs until the first iteration whose test fails. *)
Lemma get_all_entries_loop_exact (j : nat) fuel maximum_pages page_limit
    (batch_num : Z) cumulative_data log :
  (j < fuel)%nat →
  (∀ i : nat, (i < j)%nat → goes_on maximum_pages page_limit log batch_num i = true) →
  goes_on maximum_pages page_limit log batch_num j = false →
  get_all_entries_loop fuel maximum_pages page_limit true batch_num
    cumulative_data log
  = (Some (cumulative_data ++
           concat ((λ i : nat, resp_data (page page_limit log batch_num i))
                     <$> seq 0 (S j))),
     log ++ ((λ i : nat, all_entries_kwargs page_limit (batch_num + Z.of_nat i))
               <$> seq 0 (S j))).
Proof.
  revert fuel batch_num cumulative_data log.
  induction j as [|j IH]; intros fuel b cum log Hfuel Hon Hoff.
  - destruct fuel as [|fuel]; [lia|]. simpl.
    rewrite Nat.add_0_r, Z.add_0_r in Hoff. rewrite Hoff.
    rewrite Nat.add_0_r, Z.add_0_r, app_nil_r.
    by destruct fuel.
  - destruct fuel as [|fuel]; [lia|].
    assert (seq 0 (S (S j)) = 0%nat :: (S <$> seq 0 (S j))) as ->
      by (change (seq 0 (S (S j))) with (0%nat :: seq 1 (S j));
          by rewrite <- seq_shift).
    rewrite !fmap_cons, <- !list_fmap_compose.
    pose proof (Hon 0%nat ltac:(lia)) as H0'.
    rewrite Nat.add_0_r, Z.add_0_r in H0'.
    remember (seq 0 (S j)) as l eqn:Hl. simpl. rewrite H0'. subst l.
    assert (∀ i : nat, b + 1 + Z.of_nat i = b + Z.of_nat (S i)) as Hb by lia.
    assert (∀ i : nat, (length (log ++ [all_entries_kwargs page_limit b]) + i
                        = length log + S i)%nat) as Hlen
      by (intros i; rewrite length_app; simpl; lia).
    rewrite (IH fuel (b + 1) _ (log ++ [all_entries_kwargs page_limit b]));
      [|lia| |].
    + rewrite <- !app_assoc, Nat.add_0_r, Z.add_0_r.
      f_equal.
      * do 4 f_equal. apply list_fmap_ext. intros _ i _. simpl.
        by rewrite Hb, Hlen.
      * apply (f_equal (app log)), (f_equal (cons _)).
        apply list_fmap_ext. intros _ i _. simpl. by rewrite Hb.
    + intros i Hi. rewrite Hb, Hlen. apply Hon. lia.
    + by rewrite Hb, Hlen.
Qed.

(** X1: a page bound of zero or less does not prevent the first query: the
    call still sends one query, with offset 0, and returns that page,
    whatever its ["next"] link says. *)
Theorem get_all_entries_nonpositive_bound fuel (m : Z) page_limit log :
  m ≤ 0 → (0 < fuel)%nat →
  get_all_entries fuel (Pages m) page_limit log
  = (Some (resp_data
             (oqmd_phases (length log)
                [ ("limit", KwInt page_limit); ("offset", KwInt 0);
                  ("filter",
                   KwStr "stability <= 0.1 AND delta_e <= 0 AND ntypes < 4") ])),
     log ++
     [[ ("limit", KwInt page_limit); ("offset", KwInt 0);
        ("filter", KwStr "stability <= 0.1 AND delta_e <= 0 AND ntypes < 4") ]]).
Proof.
  intros Hm Hfuel. unfold get_all_entries.
  rewrite (get_all_entries_loop_exact 0); [|done|intros i Hi; lia|].
  - simpl. by rewrite Nat.add_0_r, app_nil_r.
  - simpl. apply andb_false_intro2. apply Z.leb_gt. lia.
Qed.

(** X2: the call fetches the pages 0, 1, ..., [j], where [j] is the first
    page that has no ["next"] link or whose number [j + 1] is above
    [maximum_pages]; it returns their data in this order and has sent one
    query per page. *)
Theorem get_all_entries_until_last_page (j : nat) fuel maximum_pages page_limit :
  (j < fuel)%nat →
  (∀ i : nat, (i < j)%nat →
     truthy (links_next
               (oqmd_phases i (all_entries_kwargs page_limit (Z.of_nat i)))) = true ∧
     le_max_pages (Z.of_nat i + 1) maximum_pages = true) →
  truthy (links_next
            (oqmd_phases j (all_entries_kwargs page_limit (Z.of_nat j)))) = false ∨
  le_max_pages (Z.of_nat j + 1) maximum_pages = false →
  get_all_entries fuel maximum_pages page_limit []
  = (Some (concat
             ((λ i : nat,
                 resp_data
                   (oqmd_phases i (all_entries_kwargs page_limit (Z.of_nat i))))
                <$> seq 0 (S j))),
     (λ i : nat, all_entries_kwargs page_limit (Z.of_nat i)) <$> seq 0 (S j)).
Proof.
  intros Hfuel Hon Hoff. unfold get_all_entries.
  rewrite (get_all_entries_loop_exact j); [done|done| |].
  - intros i Hi. destruct (Hon i Hi) as [Hnext Hle]. simpl.
    rewrite Z.add_0_l. by rewrite Hnext, Hle.
  - simpl. rewrite Z.add_0_l. apply andb_false_iff. done.
Qed.

Lemma get_all_entries_loop_first_query fuel maximum_pages page_limit
    (batch_num : Z) cumulative_data log :
  (0 < fuel)%nat →
  (length log <
   length (get_all_entries_loop fuel maximum_pages page_limit true batch_num
             cumulative_data log).2)%nat.
Proof.
  destruct fuel as [|fuel]; [lia|]. intros _. simpl.
  match goal with |- context [get_all_entries_loop fuel _ _ ?c ?b ?cum ?l] =>
    destruct (get_all_entries_loop_log fuel maximum_pages page_limit c b cum l)
      as [k ->] end.
  rewrite !length_app. simpl. lia.
Qed.

(** X3: with a finite page bound [m] the call returns once the fuel exceeds
    [m], whatever the server answers, and it has then sent at least one and
    at most [1 + max m 0] queries. *)
Theorem get_all_entries_bounded fuel (m : Z) page_limit :
  (Z.to_nat m < fuel)%nat →
  ∃ entries log,
    get_all_entries fuel (Pages m) page_limit [] = (Some entries, log) ∧
    (1 ≤ length log ≤ 1 + Z.to_nat m)%nat.
Proof.
  intros Hfuel.
  destruct (get_all_entries_returns fuel m page_limit [] Hfuel) as [entries Hrun].
  pose proof (get_all_entries_count fuel m page_limit) as Hcount.
  pose proof (get_all_entries_loop_first_query fuel (Pages m) page_limit 0 [] []
                ltac:(lia)) as Hfirst.
  fold (get_all_entries fuel (Pages m) page_limit []) in Hfirst.
  destruct (get_all_entries fuel (Pages m) page_limit []) as [r log].
  simpl in *. subst r. exists entries, log. split; [done|lia].
Qed.

(** X4: with [maximum_pages = np.inf] and a server whose every page has a
    ["next"] link the loop does not end: whatever the fuel, the call is still
    running when it is used up. *)
Theorem get_all_entries_never_returns fuel page_limit log :
  (∀ n kwargs, truthy (links_next (oqmd_phases n kwargs)) = true) →
  (get_all_entries fuel Inf page_limit log).1 = None.
Proof.
  intros Hnext. unfold get_all_entries.
  generalize (@nil Entry) at 1. generalize 0 at 1. revert log.
  induction fuel as [|fuel IH]; intros log b cum; simpl; [done|].
  rewrite Hnext. simpl. apply IH.
Qed.

(** X5: whenever a call that starts with an empty log returns, its value is
    the concatenation, in the order of the queries, of the ["data"] lists of
    the pages the server gave, one page for each query in the log. *)
Theorem get_all_entries_data fuel maximum_pages page_limit entries log :
  get_all_entries fuel maximum_pages page_limit [] = (Some entries, log) →
  entries
  = concat ((λ i : nat,
               resp_data
                 (oqmd_phases i (all_entries_kwargs page_limit (Z.of_nat i))))
              <$> seq 0 (length log)).
Proof.
  intros (k & Hlen & ->)%get_all_entries_loop_data.
  simpl in *. by subst k.
Qed.

End PaginationFacts.

Section AseObjectFacts.
Import Py GetEntriesUtils.
Context `{PyFloat}.



Lemma comprehension_length {A B} (f : A → result B) l ys :
  comprehension f l = Ok ys → length ys = length l.
Proof.
  revert ys. induction l as [|x l IH]; intros ys; simpl; [by intros [= <-]|].
  destruct (f x); [|done]. destruct (comprehension f l); [|done].
  intros [= <-]. simpl. f_equal. by apply IH.
Qed.

(** [info[0]] exists for every site string: the element is read without a
    check, and only the coordinates can fail. *)
Lemma site_info_unfold atom_info :
  site_info atom_info
  = xs ← comprehension float (drop 2 (split " " atom_info));
    mret (default "" (head (split " " atom_info)), xs).
Proof.
  unfold site_info. pose proof (split_nonempty " " atom_info).
  by destruct (split " " atom_info).
Qed.


Lemma get_ase_object_unfold entry :
  get_ase_object entry
  = infos ← comprehension site_info (sites entry);
    let s := mkStructure (mkLattice (unit_cell entry)) (infos.*1) (infos.*2) in
    mret (get_atoms s, set_pmg_struct s (set_atoms_obj (get_atoms s) entry)).
Proof.
  unfold get_ase_object. rewrite sites_loop_comprehension.
  by destruct (comprehension site_info (sites entry)).
Qed.


(** X7: the structure [get_ase_object] builds has the lattice of
    ["unit_cell"] and one element and one coordinate list for each site
    string, in the order of the sites. *)
Theorem get_ase_object_one_atom_per_site (entry : Entry) atoms entry' :
  get_ase_object entry = Ok (atoms, entry') →
  lattice (atoms_structure atoms) = mkLattice (unit_cell entry) ∧
  species (atoms_structure atoms)
  = (λ site, default "" (head (split " " site))) <$> sites entry ∧
  length (coords (atoms_structure atoms)) = length (sites entry).
Proof.
  rewrite get_ase_object_unfold.
  destruct (comprehension site_info (sites entry)) as [infos|] eqn:Hinfos; [|done].
  simpl. intros [= <- <-]. simpl. split; [done|].
  pose proof (comprehension_length _ _ _ Hinfos) as Hlen.
  split; [|by rewrite length_fmap].
  apply comprehension_ok in Hinfos. clear Hlen.
  induction Hinfos as [|site info l infos Hinfo _ IH]; [done|].
  rewrite !fmap_cons, IH. f_equal.
  rewrite site_info_unfold in Hinfo.
  destruct (comprehension float _); [|done]. by injection Hinfo as <-.
Qed.

(** X8: running [get_ase_object] again on the entry it has updated gives the
    same atoms object and leaves the entry as it is: the two keys it stores
    are not among those it reads. *)
Theorem get_ase_object_again (entry : Entry) atoms entry' :
  get_ase_object entry = Ok (atoms, entry') →
  get_ase_object entry' = Ok (atoms, entry').
Proof.
  rewrite !get_ase_object_unfold.
  destruct (comprehension site_info (sites entry)) as [infos|] eqn:Hinfos; [|done].
  simpl. intros [= <- <-]. simpl. by rewrite Hinfos.
Qed.


End AseObjectFacts.

Section WriteDataFacts.
Import Py GetEntriesUtils.
Context `{PyFloat}.

(** The row [write_data] makes of an entry and the atoms object it got. *)
Local Abbreviation row_of atoms entry :=
  (mkRow atoms "oqmd" ("oqmd-" +:+ pretty (entry_id entry)) (delta_e entry)).

(** The loop over a concatenation is the loop over the first list followed
    by the loop over the second, on the database the first leaves. *)
Lemma write_loop_app (l1 l2 : list Entry) (db : list Row) :
  write_loop (l1 ++ l2) db
  = '(db1, done1) ← write_loop l1 db;
    '(db2, done2) ← write_loop l2 db1;
    mret (db2, done1 ++ done2).
Proof.
  revert db. induction l1 as [|entry l1 IH]; intros db; simpl.
  - by destruct (write_loop l2 db) as [[db2 done2]|].
  - destruct (get_ase_object entry) as [[atoms entry']|]; simpl; [|done].
    rewrite IH.
    destruct (write_loop l1 _) as [[db1 done1]|]; simpl; [|done].
    by destruct (write_loop l2 db1) as [[db2 done2]|].
Qed.

(** What a run of the loop that returns has done. *)
Lemma write_loop_ok (entries : list Entry) (db : list Row) db' done :
  write_loop entries db = Ok (db', done) →
  ∃ rows, db' = db ++ rows ∧
    Forall3 (λ entry row entry',
               get_ase_object entry = Ok (row_atoms row, entry') ∧
               row = row_of (row_atoms row) entry)
      entries rows done.
Proof.
  revert db db' done. induction entries as [|entry l IH]; intros db db' done; simpl.
  - intros [= <- <-]. exists []. rewrite app_nil_r. split; [done|constructor].
  - destruct (get_ase_object entry) as [[atoms entry']|] eqn:Hget; simpl; [|done].
    destruct (write_loop l _) as [[db1 done1]|] eqn:Hloop; simpl; [|done].
    intros [= <- <-]. apply IH in Hloop as (rows & -> & Hrows).
    eexists (_ :: rows). rewrite <- app_assoc. split; [done|].
    constructor; [|done]. simpl. split; [done|].
    apply get_ase_object_entry in Hget as (_ & _ & _ & _ & -> & ->). done.
Qed.

(** X10: [write_data] raises the exception of the first entry that
    [get_ase_object] rejects, whatever comes after it in the list. *)
Theorem write_data_raises (accepted : list Entry) rejected rest path
    (disk : Disk) ex :
  Forall (λ entry, is_ok (get_ase_object entry) = true) accepted →
  get_ase_object rejected = Raise ex →
  write_data (accepted ++ rejected :: rest) path disk = Raise ex.
Proof.
  intros Hok Hbad. unfold write_data, Disk in *. rewrite write_loop_app.
  destruct (write_loop_rows accepted (connect path disk) Hok)
    as (rows & done & -> & _).
  simpl. by rewrite Hbad.
Qed.

(** X11: a call that returns has changed the database at [path] only, and
    only by adding rows after those it held: one row per entry. *)
Theorem write_data_appends (entries : list Entry) path (disk disk' : Disk) done :
  write_data entries path disk = Ok (disk', done) →
  (∀ other, other ≠ path → disk' !! other = disk !! other) ∧
  ∃ rows, disk' !! path = Some (default [] (disk !! path) ++ rows) ∧
          length rows = length entries.
Proof.
  unfold write_data, connect, Disk in *.
  destruct (write_loop entries _) as [[db' done']|] eqn:Hloop; simpl; [|done].
  intros [= <- <-]. split.
  - intros other Hother. by rewrite lookup_insert_ne.
  - apply write_loop_ok in Hloop as (rows & -> & Hrows).
    exists rows. rewrite lookup_insert_eq. split; [done|].
    clear -Hrows. induction Hrows; simpl; congruence.
Qed.

(** X12: writing two lists one after the other to the same path leaves the
    same database as writing their concatenation in one call. *)
Theorem write_data_app (l1 l2 : list Entry) path (disk disk1 disk2 : Disk)
    done1 done2 :
  write_data l1 path disk = Ok (disk1, done1) →
  write_data l2 path disk1 = Ok (disk2, done2) →
  write_data (l1 ++ l2) path disk = Ok (disk2, done1 ++ done2).
Proof.
  unfold write_data, connect, Disk in *. rewrite write_loop_app.
  destruct (write_loop l1 _) as [[db1 d1]|]; simpl; [|done].
  intros [= <- <-]. rewrite lookup_insert_eq. simpl.
  destruct (write_loop l2 db1) as [[db2 d2]|]; simpl; [|done].
  intros [= <- <-]. by rewrite insert_insert_eq.
Qed.

(** X13: the entries come out of [write_data] with ["atoms_obj"] and
    ["pmg_struct"] set, to the atoms object of their row and its structure;
    their ["entry_id"], ["delta_e"], ["sites"] and ["unit_cell"] are as
    before. *)
Theorem write_data_updates_entries (entries : list Entry) path
    (disk disk' : Disk) done :
  write_data entries path disk = Ok (disk', done) →
  ∃ rows,
    disk' !! path = Some (default [] (disk !! path) ++ rows) ∧
    Forall3 (λ entry row entry',
               atoms_obj entry' = Some (row_atoms row) ∧
               pmg_struct entry' = Some (atoms_structure (row_atoms row)) ∧
               unit_cell entry' = unit_cell entry ∧
               sites entry' = sites entry ∧
               entry_id entry' = entry_id entry ∧
               delta_e entry' = delta_e entry)
      entries rows done.
Proof.
  unfold write_data, connect, Disk in *.
  destruct (write_loop entries _) as [[db' done']|] eqn:Hloop; simpl; [|done].
  intros [= <- <-]. apply write_loop_ok in Hloop as (rows & -> & Hrows).
  exists rows. rewrite lookup_insert_eq. split; [done|].
  induction Hrows as [|entry row entry' l rows' done' [Hget _] _ IH];
    constructor; [|done].
  by apply get_ase_object_entry in Hget.
Qed.

(** X14: entries with pairwise different ["entry_id"] get pairwise different
    [bulk_id] keys. *)
Theorem write_data_bulk_ids (entries : list Entry) path (disk disk' : Disk) done :
  NoDup (entry_id <$> entries) →
  write_data entries path disk = Ok (disk', done) →
  ∃ rows,
    disk' !! path = Some (default [] (disk !! path) ++ rows) ∧
    NoDup (row_bulk_id <$> rows).
Proof.
  intros Hids. unfold write_data, connect, Disk in *.
  destruct (write_loop entries _) as [[db' done']|] eqn:Hloop; simpl; [|done].
  intros [= <- <-]. apply write_loop_ok in Hloop as (rows & -> & Hrows).
  exists rows. rewrite lookup_insert_eq. split; [done|].
  assert (row_bulk_id <$> rows
          = (λ id : Z, "oqmd-" +:+ pretty id) <$> (entry_id <$> entries)) as ->.
  { clear -Hrows. induction Hrows as [|entry row entry' l rows' done' [_ ->] _ IH];
      [done|]. rewrite !fmap_cons, IH. done. }
  apply NoDup_fmap_2; [|done].
  intros id1 id2 Heq. apply (inj (String.app "oqmd-")) in Heq.
  by apply (inj pretty) in Heq.
Qed.

End WriteDataFacts.

(** ** [mprester_ocp.py]: requests, errors and the order of the entries *)

Section ChemsysFacts.
Import Py.

(** Joining what [split] returns gives the string back. *)
Lemma join_split sep s : join (String sep "") (split sep s) = s.
Proof.
  induction s as [|c s IH]; [done|]. simpl.
  pose proof (split_nonempty sep s) as Hne. revert IH.
  destruct (split sep s) as [|t ts]; [done|]. intros IH.
  destruct (Ascii.eqb c sep) eqn:Hc.
  - apply Ascii.eqb_eq in Hc as ->.
    change (join (String sep "") ("" :: t :: ts))
      with (String sep (join (String sep "") (t :: ts))).
    by rewrite IH.
  - destruct ts as [|t' ts]; [by rewrite <- IH|].
    change (join (String sep "") (String c t :: t' :: ts))
      with (String c (join (String sep "") (t :: t' :: ts))).
    by rewrite IH.
Qed.

End ChemsysFacts.

Section MethodFacts.
Import Py MpresterOcp.
Context `{PyFloat} {Composition Ion Compatibility : Type}.
Context `{!@Pymatgen _ Composition Ion Compatibility} `{!@MPRester _ Composition}.

#[local] Existing Instances M_ret M_bind.

Local Abbreviation M := (@M Compatibility).
Local Abbreviation Self := (@Self Compatibility).
Local Abbreviation ComputedEntry := (@ComputedEntry _ Composition).
Local Abbreviation PhaseDiagram := (@PhaseDiagram _ Composition).
Local Abbreviation PourbaixEntry := (@PourbaixEntry _ Composition Ion).
Local Abbreviation SolidCompatArg := (@SolidCompatArg Compatibility).
Local Abbreviation IonRecord := (@IonRecord _).

(** *** Code that neither reads nor changes [self] *)

(** The outcome depends on the namespace only, and [self] is left as it
    is. *)
Local Abbreviation stateless m :=
  (∃ r, ∀ (g : gset string) (self : Self), m g self = (r g, self)).

Lemma stateless_ret {A} (a : A) : stateless (mret a : M A).
Proof. by exists (λ _, Ok a). Qed.

Lemma stateless_raise {A} e : stateless (raise e : M A).
Proof. by exists (λ _, Raise e). Qed.

Lemma stateless_lift {A} (r : result A) : stateless (lift r : M A).
Proof. by exists (λ _, r). Qed.

Lemma stateless_global name : stateless (global name : M unit).
Proof.
  exists (λ g, if decide (name ∈ g) then Ok () else Raise (NameError name)).
  intros g self. unfold global. by case_decide.
Qed.

Lemma stateless_bind {A B} (m : M A) (f : A → M B) :
  stateless m → (∀ a, stateless (f a)) → stateless (m ≫= f).
Proof.
  intros [r Hr] Hf.
  assert (∃ rf, ∀ a g (self : Self), f a g self = (rf a g, self)) as [rf Hrf].
  { exists (λ a g, (f a g (mkSelf None [])).1). intros a g self.
    destruct (Hf a) as [ra Hra]. by rewrite !Hra. }
  exists (λ g, match r g with Ok a => rf a g | Raise e => Raise e end).
  intros g self. rewrite bind_run, Hr. destruct (r g); [apply Hrf|done].
Qed.

Ltac stateless_step :=
  cbv zeta;
  lazymatch goal with
  | |- ∃ r, ∀ g self, (mret _) g self = _ => apply stateless_ret
  | |- ∃ r, ∀ g self, (global _) g self = _ => apply stateless_global
  | |- ∃ r, ∀ g self, (raise _) g self = _ => apply stateless_raise
  | |- ∃ r, ∀ g self, (lift _) g self = _ => apply stateless_lift
  | |- ∃ r, ∀ g self, (_ ≫= _) g self = _ => apply stateless_bind; [|intros ?]
  end.

Ltac stateless := repeat stateless_step.

Lemma stateless_ion_body ion_ref_entries ion_ref_pd (n : nat) (i_d : IonRecord)
    (pbx_entries : list PourbaixEntry) :
  stateless (ion_body ion_ref_entries ion_ref_pd n i_d pbx_entries).
Proof. unfold ion_body. stateless. case_match; stateless. Qed.

Lemma stateless_ion_loop ion_ref_entries ion_ref_pd (l : list (nat * IonRecord))
    (pbx_entries : list PourbaixEntry) :
  stateless (ion_loop ion_ref_entries ion_ref_pd l pbx_entries).
Proof.
  revert pbx_entries. induction l as [|[n i_d] l IH]; intros pbx; simpl.
  - apply stateless_ret.
  - apply stateless_bind; [apply stateless_ion_body|auto].
Qed.

Lemma stateless_H_and_O : stateless (H_and_O : M (gset Element)).
Proof. unfold H_and_O. stateless. Qed.

Lemma stateless_chemsys_elements chemsys :
  stateless (chemsys_elements chemsys : M (gset Element)).
Proof. induction chemsys as [|s l IH]; simpl; stateless. apply IH. Qed.

Lemma stateless_reference_compositions (ion_data : list IonRecord) :
  stateless (reference_compositions ion_data : M (list Composition)).
Proof. induction ion_data as [|d l IH]; simpl; stateless. apply IH. Qed.

Lemma stateless_solid_loop ion_ref_pd extra_elts (l : list ComputedEntry)
    (pbx_entries : list PourbaixEntry) :
  stateless (solid_loop ion_ref_pd extra_elts l pbx_entries).
Proof.
  revert pbx_entries. induction l as [|entry l IH]; intros pbx; simpl.
  - apply stateless_ret.
  - apply stateless_bind; [apply stateless_H_and_O|intros HO].
    case_match; stateless; apply IH.
Qed.

(** *** Code that does not change [self] *)

Local Abbreviation unchanging m :=
  (∀ (g : gset string) (self : Self), (m g self).2 = self).

Lemma unchanging_stateless {A} (m : M A) : stateless m → unchanging m.
Proof. intros [r Hr] g self. by rewrite Hr. Qed.

Lemma unchanging_bind {A B} (m : M A) (f : A → M B) :
  unchanging m → (∀ a, unchanging (f a)) → unchanging (m ≫= f).
Proof.
  intros Hm Hf g self. rewrite bind_run. specialize (Hm g self).
  destruct (m g self) as [[a|e] self1]; simpl in *; subst self1; [apply Hf|done].
Qed.

Lemma unchanging_get_solid_compat : unchanging (get_solid_compat : M Compatibility).
Proof. intros g self. unfold get_solid_compat. by destruct (solid_compat self). Qed.

(** *** The compatibility scheme and the requests *)

Local Abbreviation accepted arg :=
  (arg = ArgStr "MaterialsProjectCompatibility" ∨
   arg = ArgStr "MaterialsProject2020Compatibility" ∨
   ∃ c : Compatibility, arg = ArgInstance c).

(** The scheme the check stores for an accepted argument. *)
Lemma set_compatibility_scheme (arg : SolidCompatArg) g (self : Self) :
  module_globals ⊆ g → accepted arg →
  ∃ c, set_compatibility arg g self = (Ok (), mkSelf (Some c) (requests self)) ∧
       (arg = ArgStr "MaterialsProjectCompatibility" →
        c = MaterialsProjectCompatibility_new) ∧
       (arg = ArgStr "MaterialsProject2020Compatibility" →
        c = MaterialsProject2020Compatibility_new) ∧
       (∀ c', arg = ArgInstance c' → c = c').
Proof.
  intros Hg Harg. unfold set_compatibility.
  destruct Harg as [->|[->|[c ->]]]; simpl;
    rewrite bind_run, global_elem by (apply Hg; set_solver);
    eexists; (split; [done|]); repeat split; try done; congruence.
Qed.

(** The state in which a call leaves [self], whether it returns or raises:
    the scheme is stored, the reference data have been requested, and so
    have the entries when the name [itertools] is bound. *)
Lemma call_state chemsys (arg : SolidCompatArg)
    (additional_entries : list ComputedEntry) g (self : Self) c :
  "Composition" ∈ g →
  set_compatibility arg g self = (Ok (), mkSelf (Some c) (requests self)) →
  (get_pourbaix_entries_w_add_entries chemsys arg additional_entries g self).2
  = mkSelf (Some c)
      (requests self ++
       MakeRequest ("/pourbaix_diagram/reference_data/" +:+
                    join "-" (chemsys_symbols chemsys))
       :: (if decide ("itertools" ∈ g)
           then [GetEntriesInChemsys
                   (elements (list_to_set
                      (ion_ref_elts_of (ion_data_of chemsys) ++ ["O"; "H"])
                        : gset string))
                   ["e_above_hull"] false]
           else [])).
Proof.
  intros Hcomp Hset. unfold get_pourbaix_entries_w_add_entries.
  rewrite bind_run, Hset. cbv zeta. rewrite bind_run. unfold _make_request at 1.
  rewrite bind_run, reference_compositions_elem by done.
  rewrite bind_run. unfold global at 1. case_decide; [|done].
  match goal with |- ((get_entries_in_chemsys _ _ _ ≫= ?rest) g _).2 = _ =>
    assert (∀ ion_ref_entries, unchanging (rest ion_ref_entries)) as Hrest end.
  { intros ion_ref_entries.
    repeat (apply unchanging_bind; [|intros ?]); cbv zeta;
      first [ apply unchanging_get_solid_compat
            | apply unchanging_stateless;
              first [ apply stateless_global | apply stateless_ion_loop
                    | apply stateless_chemsys_elements | apply stateless_H_and_O
                    | apply stateless_solid_loop | apply stateless_ret ] ]. }
  rewrite bind_run. unfold get_entries_in_chemsys at 1.
  etrans; [apply Hrest|]. simpl. by rewrite <- app_assoc.
Qed.

(** A call that returns, with the state it leaves. *)
Lemma call_returns chemsys (arg : SolidCompatArg)
    (additional_entries : list ComputedEntry) g (self : Self) pbx_entries self' :
  get_pourbaix_entries_w_add_entries chemsys arg additional_entries g self
    = (Ok pbx_entries, self') →
  ∃ solid,
    set_compatibility arg g self = (Ok (), mkSelf (Some solid) (requests self)) ∧
    let ion_data := ion_data_of chemsys in
    let ion_ref_entries := ion_ref_entries_of solid ion_data in
    let ion_ref_pd := mkPhaseDiagram ion_ref_entries in
    self' = mkSelf (Some solid)
              (requests self ++
               [ MakeRequest ("/pourbaix_diagram/reference_data/" +:+
                              join "-" (chemsys_symbols chemsys));
                 GetEntriesInChemsys
                   (elements (list_to_set (ion_ref_elts_of ion_data ++ ["O"; "H"])
                                : gset string))
                   ["e_above_hull"] false ]) ∧
    ∃ ions,
      ion_loop ion_ref_entries ion_ref_pd (enumerate ion_data) [] g self'
        = (Ok ions, self') ∧
      solid_loop ion_ref_pd (extra_elts_of chemsys ion_data)
        (ion_ref_entries ++ additional_entries) ions g self'
        = (Ok pbx_entries, self').
Proof.
  unfold get_pourbaix_entries_w_add_entries. intros Hrun.
  apply bind_ok in Hrun as ([] & self1 & Hset & Hrun).
  apply set_compatibility_ok in Hset as Hself1.
  destruct Hself1 as [[solid Hsolid] Hreq1].
  destruct self1 as [compat1 requests1]. simpl in Hsolid, Hreq1. subst.
  apply bind_ok in Hrun as (ion_data & self2 & Hreq & Hrun).
  injection Hreq as <- <-.
  apply bind_ok in Hrun as (comps & ? & [-> ->]%reference_compositions_ok & Hrun).
  apply bind_ok in Hrun as (_ & ? & [_ ->]%global_ok & Hrun).
  apply bind_ok in Hrun as (entries & self3 & Hreq & Hrun).
  injection Hreq as <- <-. simpl in Hrun.
  do 3 apply bind_ok in Hrun as (_ & ? & [_ ->]%global_ok & Hrun).
  apply bind_ok in Hrun as (solid' & ? & Hget & Hrun).
  unfold get_solid_compat in Hget. simpl in Hget. injection Hget as <- <-.
  do 3 apply bind_ok in Hrun as (_ & ? & [_ ->]%global_ok & Hrun).
  apply bind_ok in Hrun as (ions & self4 & Hions & Hrun).
  apply bind_ok in Hrun as (elts & ? & [-> ->]%chemsys_elements_ok & Hrun).
  apply bind_ok in Hrun as (HO & ? & [-> ->]%H_and_O_ok & Hrun).
  apply bind_ok in Hrun as (pbx & self5 & Hsolids & Hrun).
  apply ret_ok in Hrun as [-> ->].
  apply solid_loop_ok in Hsolids as Hself. destruct Hself as [<- _].
  apply ion_loop_run in Hions as Hself. destruct Hself as [-> _].
  exists solid. split; [done|]. simpl. rewrite <- app_assoc. split; [done|].
  exists ions. rewrite <- app_assoc in Hions, Hsolids. done.
Qed.

(** X15: whatever the outcome of a call whose [solid_compat] is accepted,
    afterwards [self.solid_compat] holds the chosen scheme and the reference
    data have been requested; the entries have been requested as well when
    the name [itertools] is bound, and nothing else has been requested. *)
Theorem call_leaves_requests chemsys (arg : SolidCompatArg)
    (additional_entries : list ComputedEntry) g (self : Self) :
  module_globals ⊆ g →
  arg = ArgStr "MaterialsProjectCompatibility" ∨
  arg = ArgStr "MaterialsProject2020Compatibility" ∨
  (∃ c : Compatibility, arg = ArgInstance c) →
  ∃ c,
    (arg = ArgStr "MaterialsProjectCompatibility" →
     c = MaterialsProjectCompatibility_new) ∧
    (arg = ArgStr "MaterialsProject2020Compatibility" →
     c = MaterialsProject2020Compatibility_new) ∧
    (∀ c', arg = ArgInstance c' → c = c') ∧
    (get_pourbaix_entries_w_add_entries chemsys arg additional_entries g self).2
    = mkSelf (Some c)
        (requests self ++
         MakeRequest ("/pourbaix_diagram/reference_data/" +:+
                      join "-" (chemsys_symbols chemsys))
         :: (if decide ("itertools" ∈ g)
             then [GetEntriesInChemsys
                     (elements (list_to_set
                        (ion_ref_elts_of (ion_data_of chemsys) ++ ["O"; "H"])
                          : gset string))
                     ["e_above_hull"] false]
             else [])).
Proof.
  intros Hg Harg.
  destruct (set_compatibility_scheme arg g self Hg Harg)
    as (c & Hset & Hc1 & Hc2 & Hc3).
  exists c. repeat split; try done.
  apply call_state; [apply Hg; set_solver|done].
Qed.

(** X16: a call that returns has sent exactly two requests: the reference
    data of the chemical system and then the entries, with
    [property_data=["e_above_hull"]] and [compatible_only=False], for a list
    of elements without duplicates that holds O, H and the elements of the
    reference solids, and nothing else. *)
Theorem call_requests chemsys (arg : SolidCompatArg)
    (additional_entries : list ComputedEntry) g (self : Self) pbx_entries self' :
  get_pourbaix_entries_w_add_entries chemsys arg additional_entries g self
    = (Ok pbx_entries, self') →
  ∃ elts,
    requests self'
    = requests self ++
      [ MakeRequest ("/pourbaix_diagram/reference_data/" +:+
                     join "-" (chemsys_symbols chemsys));
        GetEntriesInChemsys elts ["e_above_hull"] false ] ∧
    NoDup elts ∧
    ∀ x, x ∈ elts ↔
         x = "O" ∨ x = "H" ∨
         ∃ d, d ∈ ion_data_of chemsys ∧
              x ∈ comp_elements (Composition_new (Reference_Solid d)).
Proof.
  intros (solid & _ & -> & _)%call_returns. eexists. split; [done|].
  split; [apply NoDup_elements|]. intros x.
  rewrite elem_of_elements, elem_of_list_to_set, elem_of_app.
  unfold ion_ref_elts_of. rewrite list_elem_of_In, in_concat.
  setoid_rewrite <- list_elem_of_In. rewrite <- list_fmap_compose. split.
  - intros [(l & (d & -> & Hd)%list_elem_of_fmap & Hx)|Hx].
    + right; right. by exists d.
    + apply elem_of_cons in Hx as [->|Hx]; [by left|].
      apply list_elem_of_singleton in Hx as ->. by right; left.
  - intros [->|[->|(d & Hd & Hx)]]; [right; set_solver|right; set_solver|].
    left. eexists. split; [apply list_elem_of_fmap; by exists d|done].
Qed.

(** X17: for a chemical system given as a string, the reference data are
    requested at the fixed path followed by that string as it is: splitting
    it at the dashes and joining the symbols with dashes gives it back. *)
Theorem string_chemsys_url (s : string) (arg : SolidCompatArg)
    (additional_entries : list ComputedEntry) g (self : Self) :
  module_globals ⊆ g →
  arg = ArgStr "MaterialsProjectCompatibility" ∨
  arg = ArgStr "MaterialsProject2020Compatibility" ∨
  (∃ c : Compatibility, arg = ArgInstance c) →
  ∃ more,
    requests
      (get_pourbaix_entries_w_add_entries (ChemStr s) arg additional_entries
         g self).2
    = requests self ++
      MakeRequest ("/pourbaix_diagram/reference_data/" +:+ s) :: more.
Proof.
  intros Hg Harg.
  destruct (set_compatibility_scheme arg g self Hg Harg) as (c & Hset & _).
  rewrite (call_state _ _ _ _ _ c) by (done || (apply Hg; set_solver)).
  simpl. rewrite (join_split "-" s). by eexists.
Qed.

(** X18: a list of element symbols and the string of these symbols joined
    by dashes are the same chemical system to the method, provided the list
    is not empty and no symbol holds a dash. *)
Theorem chemsys_forms_agree (l : list string) (arg : SolidCompatArg)
    (additional_entries : list ComputedEntry) :
  l ≠ [] → Forall (λ symbol, contains "-" symbol = false) l →
  get_pourbaix_entries_w_add_entries (ChemStr (join "-" l)) arg additional_entries
  = get_pourbaix_entries_w_add_entries (ChemList l) arg additional_entries.
Proof.
  intros Hne Hdash. unfold get_pourbaix_entries_w_add_entries. simpl.
  by rewrite (split_join "-" l).
Qed.

End MethodFacts.

Section StableRefFacts.
Import Py MpresterOcp.
Context `{FloatOrder} {Composition Ion Compatibility : Type}.
Context `{!@Pymatgen _ Composition Ion Compatibility}.

#[local] Existing Instances M_ret M_bind.

Local Abbreviation Self := (@Self Compatibility).
Local Abbreviation ComputedEntry := (@ComputedEntry _ Composition).
Local Abbreviation PhaseDiagram := (@PhaseDiagram _ Composition).
Local Abbreviation PourbaixEntry := (@PourbaixEntry _ Composition Ion).
Local Abbreviation IonRecord := (@IonRecord _).

(** The first element of the sorted list is the first element of the list
    among those with the least key: what comes before it is strictly above
    it, what comes after it is not below it. *)
Lemma sorted_head_first {A} (key : A → pyfloat) (l : list A) x :
  head (sorted key l) = Some x →
  ∃ l1 l2, l = l1 ++ x :: l2 ∧
    (∀ y, y ∈ l1 → flt (key x) (key y) = true) ∧
    (∀ y, y ∈ l2 → flt (key y) (key x) = false).
Proof.
  revert x. induction l as [|a l IH]; intros x; simpl; [done|].
  rewrite insert_sorted_head.
  destruct (head (sorted key l)) as [y|] eqn:Hhead.
  - destruct (flt (key y) (key a)) eqn:Hya; intros [= <-].
    + destruct (IH y eq_refl) as (l1 & l2 & -> & Hbefore & Hafter).
      exists (a :: l1), l2. split; [done|]. split; [|done].
      intros z [->|Hz]%elem_of_cons; auto.
    + exists [], l. split; [done|]. split; [by intros z Hz%elem_of_nil|].
      apply sorted_head in Hhead as [_ Hmin]. intros z Hz.
      eapply flt_negtrans; eauto.
  - intros [= <-]. apply head_None, sorted_nil in Hhead as ->.
    exists [], []. split; [done|]. split; by intros z Hz%elem_of_nil.
Qed.

(** X19: when several entries have the reduced formula of the reference
    solid, the loop body aligns the ion against the first of them, in the
    order of [ion_ref_entries], among those of least ["e_above_hull"]: the
    matching entries before it are strictly above it, those after it are not
    below it. *)
Theorem stable_ref_first_minimal (ion_ref_entries : list ComputedEntry)
    ion_ref_pd (n : nat) (i_d : IonRecord) (pbx_entries : list PourbaixEntry)
    g (self : Self) pbx_entries' self' :
  ion_body ion_ref_entries ion_ref_pd n i_d pbx_entries g self
    = (Ok pbx_entries', self') →
  ∃ before stable_ref after hull elt correction_factor,
    filter (λ e, reduced_formula (composition e) = Reference_Solid i_d)
      ion_ref_entries = before ++ stable_ref :: after ∧
    data stable_ref !! "e_above_hull" = Some hull ∧
    (∀ e h, e ∈ before → data e !! "e_above_hull" = Some h → flt hull h = true) ∧
    (∀ e h, e ∈ after → data e !! "e_above_hull" = Some h → flt h hull = false) ∧
    Major_Elements i_d !! 0%nat = Some elt ∧
    fdiv (amount (ion_composition (Ion_from_formula (Name i_d))) elt)
         (amount (composition stable_ref) elt) = Some correction_factor ∧
    pbx_entries' = pbx_entries ++
      [ mkPourbaixEntry
          (OfIon
             (mkIonEntry (Ion_from_formula (Name i_d))
                (fadd (Energy i_d)
                   (fmul
                      (fsub (get_form_energy ion_ref_pd stable_ref)
                         (fmul (Reference_solid_energy i_d)
                            (reduced_factor (composition stable_ref))))
                      correction_factor))))
          (Some ("ion-" +:+ pretty n)) ].
Proof.
  intros (_ & sorted_refs & stable_ref & elt & cf & Hsorted & Hhead & Hmajor
          & Hdiv & ->)%ion_body_run.
  unfold reference_entries, sorted_by_hull in Hsorted.
  destruct (comprehension _ _) as [keyed|] eqn:Hkeyed; [|done].
  simpl in Hsorted. injection Hsorted as <-.
  rewrite list_lookup_fmap, <- head_lookup in Hhead.
  destruct (head (sorted fst keyed)) as [[hull x]|] eqn:Hfirst; [|done].
  injection Hhead as ->.
  apply sorted_head_first in Hfirst as (k1 & k2 & -> & Hbefore & Hafter).
  apply comprehension_ok in Hkeyed.
  assert (∀ (l : list ComputedEntry) (keyed : list (pyfloat * ComputedEntry)),
            Forall2 (λ x y, (k ← e_above_hull x; mret (k, x)) = Ok y) l keyed →
            l = keyed.*2 ∧
            ∀ k e, (k, e) ∈ keyed → data e !! "e_above_hull" = Some k) as Hdecor.
  { clear. intros l keyed Hl.
    induction Hl as [|x [k e] l keyed Hx _ [-> IH]]; [by split; [|intros ?? ?%elem_of_nil]|].
    destruct (e_above_hull x) as [k'|] eqn:Hk; [|done]. injection Hx as -> ->.
    apply e_above_hull_ok in Hk. split; [done|].
    intros k0 e0 [[= -> ->]|Hin]%elem_of_cons; eauto. }
  destruct (Hdecor _ _ Hkeyed) as [Hrefs Hkeys].
  exists (k1.*2), stable_ref, (k2.*2), hull, elt, cf.
  split. { rewrite Hrefs, fmap_app, fmap_cons. done. }
  split. { apply Hkeys. apply elem_of_app. right. by left. }
  split.
  { intros e h ([k e'] & -> & Hin)%list_elem_of_fmap Hh. simpl in Hh.
    rewrite (Hkeys k e') in Hh by (apply elem_of_app; by left).
    injection Hh as <-. apply (Hbefore _ Hin). }
  split; [|done].
  intros e h ([k e'] & -> & Hin)%list_elem_of_fmap Hh. simpl in Hh.
  rewrite (Hkeys k e') in Hh by (apply elem_of_app; right; by right).
  injection Hh as <-. apply (Hafter _ Hin).
Qed.

End StableRefFacts.

Section FailureFacts.
Import Py MpresterOcp.
Context `{PyFloat} {Composition Ion Compatibility : Type}.
Context `{!@Pymatgen _ Composition Ion Compatibility} `{!@MPRester _ Composition}.

#[local] Existing Instances M_ret M_bind.

Local Abbreviation M := (@M Compatibility).
Local Abbreviation Self := (@Self Compatibility).
Local Abbreviation ComputedEntry := (@ComputedEntry _ Composition).
Local Abbreviation PhaseDiagram := (@PhaseDiagram _ Composition).
Local Abbreviation PourbaixEntry := (@PourbaixEntry _ Composition Ion).
Local Abbreviation SolidCompatArg := (@SolidCompatArg Compatibility).
Local Abbreviation IonRecord := (@IonRecord _).

(** *** The loop body *)

Lemma insert_sorted_elem {A} (key : A → pyfloat) (x y : A) l :
  y ∈ insert_sorted key x l ↔ y = x ∨ y ∈ l.
Proof.
  induction l as [|z l IH]; simpl;
    [rewrite list_elem_of_singleton, elem_of_nil; tauto|].
  destruct (flt (key z) (key x)); rewrite !elem_of_cons; [rewrite IH|]; tauto.
Qed.

(** Sorting keeps the elements. *)
Lemma sorted_elem {A} (key : A → pyfloat) (l : list A) y :
  y ∈ sorted key l ↔ y ∈ l.
Proof.
  induction l as [|x l IH]; simpl; [done|].
  by rewrite insert_sorted_elem, IH, elem_of_cons.
Qed.

(** The keys are computed for every element, so one missing key is
    enough. *)
Lemma sorted_by_hull_missing (refs : list ComputedEntry) x :
  x ∈ refs → data x !! "e_above_hull" = None →
  sorted_by_hull refs = Raise (KeyError "e_above_hull").
Proof.
  intros Hx Hkey.
  destruct (sorted_by_hull refs) as [sorted_refs|e] eqn:Hsorted.
  - exfalso. unfold sorted_by_hull in Hsorted.
    destruct (comprehension _ refs) as [keyed|] eqn:Hkeyed; [|done].
    apply comprehension_ok in Hkeyed.
    apply list_elem_of_lookup in Hx as [i Hi].
    destruct (Forall2_lookup_l _ _ _ _ _ Hkeyed Hi) as (y & _ & Hy).
    unfold e_above_hull in Hy. by rewrite Hkey in Hy.
  - by apply sorted_by_hull_raise in Hsorted as ->.
Qed.

(** With a key on every element the sort returns, and its first element is
    one of the list. *)
Lemma sorted_by_hull_returns (refs : list ComputedEntry) :
  refs ≠ [] →
  (∀ e, e ∈ refs → is_Some (data e !! "e_above_hull")) →
  ∃ stable_ref rest,
    sorted_by_hull refs = Ok (stable_ref :: rest) ∧ stable_ref ∈ refs.
Proof.
  intros Hne Hkeys. unfold sorted_by_hull.
  destruct (comprehension _ refs) as [keyed|e] eqn:Hkeyed.
  - apply comprehension_ok in Hkeyed. simpl.
    destruct (sorted fst keyed) as [|[k x] s] eqn:Hs.
    + apply sorted_nil in Hs as ->. by apply Forall2_nil_inv_r in Hkeyed.
    + exists x, (s.*2). split; [done|].
      assert ((k, x) ∈ keyed) as [i Hi]%list_elem_of_lookup
        by (apply (sorted_elem fst); rewrite Hs; by left).
      destruct (Forall2_lookup_r _ _ _ _ _ Hkeyed Hi) as (x0 & Hx0 & Hfx).
      destruct (e_above_hull x0); [|done]. injection Hfx as _ <-.
      by eapply list_elem_of_lookup_2.
  - exfalso. apply comprehension_raise in Hkeyed as (x & Hx & Hfx).
    destruct (Hkeys x Hx) as [k Hk]. unfold e_above_hull in Hfx.
    by rewrite Hk in Hfx.
Qed.

Lemma reference_entries_elem (ion_ref_entries : list ComputedEntry) name e :
  e ∈ reference_entries ion_ref_entries name ↔
  reduced_formula (composition e) = name ∧ e ∈ ion_ref_entries.
Proof. unfold reference_entries. by rewrite list_elem_of_filter. Qed.

(** X20: [sorted] computes the key of every entry that has the reduced
    formula of the reference solid before it compares any of them: when one
    of these entries has no ["e_above_hull"] the loop body raises
    [KeyError], whatever the other entries hold, and [self] is as before. *)
Theorem missing_hull_raises (ion_ref_entries : list ComputedEntry) ion_ref_pd
    (n : nat) (i_d : IonRecord) (pbx_entries : list PourbaixEntry) g
    (self : Self) e :
  "Ion" ∈ g →
  e ∈ ion_ref_entries →
  reduced_formula (composition e) = Reference_Solid i_d →
  data e !! "e_above_hull" = None →
  ion_body ion_ref_entries ion_ref_pd n i_d pbx_entries g self
  = (Raise (KeyError "e_above_hull"), self).
Proof.
  intros Hg He Hform Hkey. unfold ion_body.
  rewrite bind_run, global_elem by done.
  assert (e ∈ reference_entries ion_ref_entries (Reference_Solid i_d)) as Hin
    by by apply reference_entries_elem.
  pose proof (sorted_by_hull_missing _ _ Hin Hkey) as Hsorted.
  destruct (reference_entries ion_ref_entries (Reference_Solid i_d))
    as [|r refs]; [by apply elem_of_nil in Hin|].
  by rewrite bind_run, Hsorted.
Qed.

(** X21: when the reference solid is among the entries and each of its
    entries has an ["e_above_hull"], a record whose ["Major_Elements"] is
    empty makes the loop body raise [IndexError]. *)
Theorem empty_major_elements_raises (ion_ref_entries : list ComputedEntry)
    ion_ref_pd (n : nat) (i_d : IonRecord) (pbx_entries : list PourbaixEntry) g
    (self : Self) :
  "Ion" ∈ g →
  (∃ e, e ∈ ion_ref_entries ∧
        reduced_formula (composition e) = Reference_Solid i_d) →
  (∀ e, e ∈ ion_ref_entries →
        reduced_formula (composition e) = Reference_Solid i_d →
        is_Some (data e !! "e_above_hull")) →
  Major_Elements i_d = [] →
  ion_body ion_ref_entries ion_ref_pd n i_d pbx_entries g self
  = (Raise IndexError, self).
Proof.
  intros Hg (e & He & Hform) Hkeys Hmajor. unfold ion_body.
  rewrite bind_run, global_elem by done.
  assert (e ∈ reference_entries ion_ref_entries (Reference_Solid i_d)) as Hin
    by by apply reference_entries_elem.
  destruct (sorted_by_hull_returns
              (reference_entries ion_ref_entries (Reference_Solid i_d)))
    as (stable_ref & rest & Hsorted & _).
  { intros Hnil. rewrite Hnil in Hin. by apply elem_of_nil in Hin. }
  { intros e' [Hform' He']%reference_entries_elem. by apply Hkeys. }
  destruct (reference_entries ion_ref_entries (Reference_Solid i_d))
    as [|r refs]; [by apply elem_of_nil in Hin|].
  rewrite bind_run, Hsorted. unfold lift, getitem. cbv beta iota zeta.
  rewrite bind_run.
  change ((stable_ref :: rest) !! 0%nat) with (Some stable_ref).
  cbv beta iota zeta. by rewrite bind_run, Hmajor.
Qed.

(** X22: when the reference solid is among the entries, each of its entries
    has an ["e_above_hull"], and the first major element of the record can
    be divided by in none of them (its amount there is zero), the loop body
    raises [ZeroDivisionError]. *)
Theorem absent_major_element_raises (ion_ref_entries : list ComputedEntry)
    ion_ref_pd (n : nat) (i_d : IonRecord) (pbx_entries : list PourbaixEntry) g
    (self : Self) elt :
  "Ion" ∈ g →
  (∃ e, e ∈ ion_ref_entries ∧
        reduced_formula (composition e) = Reference_Solid i_d) →
  (∀ e, e ∈ ion_ref_entries →
        reduced_formula (composition e) = Reference_Solid i_d →
        is_Some (data e !! "e_above_hull") ∧
        fdiv (amount (ion_composition (Ion_from_formula (Name i_d))) elt)
             (amount (composition e) elt) = None) →
  Major_Elements i_d !! 0%nat = Some elt →
  ion_body ion_ref_entries ion_ref_pd n i_d pbx_entries g self
  = (Raise ZeroDivisionError, self).
Proof.
  intros Hg (e & He & Hform) Hkeys Hmajor. unfold ion_body.
  rewrite bind_run, global_elem by done.
  assert (e ∈ reference_entries ion_ref_entries (Reference_Solid i_d)) as Hin
    by by apply reference_entries_elem.
  destruct (sorted_by_hull_returns
              (reference_entries ion_ref_entries (Reference_Solid i_d)))
    as (stable_ref & rest & Hsorted & Hstable).
  { intros Hnil. rewrite Hnil in Hin. by apply elem_of_nil in Hin. }
  { intros e' [Hform' He']%reference_entries_elem. by apply Hkeys. }
  apply reference_entries_elem in Hstable as [Hform' Hstable].
  destruct (Hkeys _ Hstable Hform') as [_ Hdiv].
  destruct (reference_entries ion_ref_entries (Reference_Solid i_d))
    as [|r refs]; [by apply elem_of_nil in Hin|].
  rewrite bind_run, Hsorted. unfold lift, getitem, truediv.
  cbv beta iota zeta. rewrite bind_run.
  change ((stable_ref :: rest) !! 0%nat) with (Some stable_ref).
  cbv beta iota zeta. rewrite bind_run, Hmajor. cbv beta iota zeta.
  by rewrite bind_run, Hdiv.
Qed.

End FailureFacts.

Section ExceptionFacts.
Import Py MpresterOcp.
Context `{PyFloat} {Composition Ion Compatibility : Type}.
Context `{!@Pymatgen _ Composition Ion Compatibility} `{!@MPRester _ Composition}.

#[local] Existing Instances M_ret M_bind.

Local Abbreviation M := (@M Compatibility).
Local Abbreviation Self := (@Self Compatibility).
Local Abbreviation ComputedEntry := (@ComputedEntry _ Composition).
Local Abbreviation PhaseDiagram := (@PhaseDiagram _ Composition).
Local Abbreviation PourbaixEntry := (@PourbaixEntry _ Composition Ion).
Local Abbreviation SolidCompatArg := (@SolidCompatArg Compatibility).
Local Abbreviation IonRecord := (@IonRecord _).

(** The exceptions a computation can raise in the namespace [g]. *)
Local Abbreviation raises_at g allowed m :=
  (∀ (self : Self) (e : exn), (m g self).1 = Raise e → allowed e).

(** What the method can raise in the namespace [g]. *)
Local Abbreviation method_exn g :=
  (λ e : exn,
     (∃ name, e = NameError name ∧ name ∉ g) ∨
     e = ValueError solid_compat_error ∨
     e = ValueError "Reference solid not contained in entry list" ∨
     e = KeyError "e_above_hull" ∨
     e = IndexError ∨
     e = ZeroDivisionError).

Lemma raises_at_ret {A} g (allowed : exn → Prop) (a : A) :
  raises_at g allowed (mret a : M A).
Proof. by intros self e. Qed.

Lemma raises_at_bind {A B} g (allowed : exn → Prop) (m : M A) (f : A → M B) :
  raises_at g allowed m → (∀ a, raises_at g allowed (f a)) →
  raises_at g allowed (m ≫= f).
Proof.
  intros Hm Hf self e. rewrite bind_run.
  destruct (m g self) as [[a|e'] self1] eqn:Hrun.
  - apply Hf.
  - simpl. intros [= <-]. apply (Hm self). by rewrite Hrun.
Qed.

Lemma raises_at_global g name : raises_at g (method_exn g) (global name : M unit).
Proof.
  intros self e. unfold global. case_decide; simpl; [done|].
  intros [= <-]. left. by exists name.
Qed.

Lemma raises_at_lift {A} g (allowed : exn → Prop) (r : result A) :
  (∀ e, r = Raise e → allowed e) → raises_at g allowed (lift r : M A).
Proof. intros Hr self e. simpl. auto. Qed.

Lemma raises_at_ion_body g ion_ref_entries ion_ref_pd (n : nat) (i_d : IonRecord)
    (pbx_entries : list PourbaixEntry) :
  raises_at g (method_exn g)
    (ion_body ion_ref_entries ion_ref_pd n i_d pbx_entries).
Proof.
  unfold ion_body.
  apply (raises_at_bind g); [apply (raises_at_global g)|intros _].
  cbv zeta. case_match.
  { intros self e [= <-]. auto. }
  apply (raises_at_bind g); [|intros sorted_refs].
  { apply (raises_at_lift g). intros e ->%sorted_by_hull_raise. auto. }
  apply (raises_at_bind g); [|intros stable_ref].
  { apply (raises_at_lift g). intros e ->%getitem_raise. auto 6. }
  apply (raises_at_bind g); [|intros elt].
  { apply (raises_at_lift g). intros e ->%getitem_raise. auto 6. }
  apply (raises_at_bind g); [|intros correction_factor].
  { apply (raises_at_lift g). intros e ->%truediv_raise. auto 7. }
  apply (raises_at_bind g); [apply (raises_at_global g)|intros _].
  apply (raises_at_bind g); [apply (raises_at_global g)|intros _].
  apply (raises_at_ret g).
Qed.

Lemma raises_at_ion_loop g ion_ref_entries ion_ref_pd (l : list (nat * IonRecord))
    (pbx_entries : list PourbaixEntry) :
  raises_at g (method_exn g)
    (ion_loop ion_ref_entries ion_ref_pd l pbx_entries).
Proof.
  revert pbx_entries. induction l as [|[n i_d] l IH]; intros pbx; simpl.
  - apply (raises_at_ret g).
  - apply (raises_at_bind g); [apply (raises_at_ion_body g)|auto].
Qed.

Lemma raises_at_H_and_O g : raises_at g (method_exn g) (H_and_O : M (gset Element)).
Proof.
  unfold H_and_O. repeat (apply (raises_at_bind g); [apply (raises_at_global g)|intros _]).
  apply (raises_at_ret g).
Qed.

Lemma raises_at_chemsys_elements g chemsys :
  raises_at g (method_exn g) (chemsys_elements chemsys : M (gset Element)).
Proof.
  induction chemsys as [|s l IH]; simpl; [apply (raises_at_ret g)|].
  apply (raises_at_bind g); [apply (raises_at_global g)|intros _].
  apply (raises_at_bind g); [apply IH|intros elts]. apply (raises_at_ret g).
Qed.

Lemma raises_at_reference_compositions g (ion_data : list IonRecord) :
  raises_at g (method_exn g)
    (reference_compositions ion_data : M (list Composition)).
Proof.
  induction ion_data as [|d l IH]; simpl; [apply (raises_at_ret g)|].
  apply (raises_at_bind g); [apply (raises_at_global g)|intros _].
  apply (raises_at_bind g); [apply IH|intros cs]. apply (raises_at_ret g).
Qed.

Lemma raises_at_solid_loop g ion_ref_pd extra_elts (l : list ComputedEntry)
    (pbx_entries : list PourbaixEntry) :
  raises_at g (method_exn g) (solid_loop ion_ref_pd extra_elts l pbx_entries).
Proof.
  revert pbx_entries. induction l as [|entry l IH]; intros pbx; simpl.
  - apply (raises_at_ret g).
  - apply (raises_at_bind g); [apply (raises_at_H_and_O g)|intros HO].
    case_match; [|apply IH].
    repeat (apply (raises_at_bind g); [apply (raises_at_global g)|intros _]).
    apply IH.
Qed.

Lemma raises_at_set_compatibility g (arg : SolidCompatArg) :
  raises_at g (method_exn g) (set_compatibility arg).
Proof.
  unfold set_compatibility.
  repeat case_match;
    (apply (raises_at_bind g); [apply (raises_at_global g)|intros _]);
    intros self e; simpl; try done.
  all: intros [= <-]; auto.
Qed.

Lemma raises_at_run {A} g (allowed : exn → Prop) (m : M A) self e self' :
  raises_at g allowed m → m g self = (Raise e, self') → allowed e.
Proof. intros Hm Hrun. apply (Hm self). by rewrite Hrun. Qed.

(** X23: the exceptions a call can raise in its own code are: [NameError]
    for a name the namespace does not bind, the [ValueError] of the
    compatibility check, the [ValueError] of the missing reference solid,
    [KeyError] for ["e_above_hull"], [IndexError] and [ZeroDivisionError].
    In particular the read of [self.solid_compat] never fails: the check
    has set the attribute on every path that reaches it. *)
Theorem call_exceptions chemsys (arg : SolidCompatArg)
    (additional_entries : list ComputedEntry) g (self : Self) e :
  (get_pourbaix_entries_w_add_entries chemsys arg additional_entries g self).1
  = Raise e →
  (∃ name, e = NameError name ∧ name ∉ g) ∨
  e = ValueError solid_compat_error ∨
  e = ValueError "Reference solid not contained in entry list" ∨
  e = KeyError "e_above_hull" ∨
  e = IndexError ∨
  e = ZeroDivisionError.
Proof.
  destruct (get_pourbaix_entries_w_add_entries _ _ _ g self) as [r self']
    eqn:Hrun.
  simpl. intros ->. unfold get_pourbaix_entries_w_add_entries in Hrun.
  apply bind_raise in Hrun as [Hrun|([] & self1 & Hset & Hrun)].
  { exact (raises_at_run g (method_exn g) _ _ _ _
             (raises_at_set_compatibility g arg) Hrun). }
  apply set_compatibility_ok in Hset as [[solid Hsolid] _].
  apply bind_raise in Hrun as [[=]|(ion_data & self2 & Hreq & Hrun)].
  injection Hreq as <- <-.
  apply bind_raise in Hrun
    as [Hrun|(comps & ? & [-> ->]%reference_compositions_ok & Hrun)].
  { exact (raises_at_run g (method_exn g) _ _ _ _
             (raises_at_reference_compositions g _) Hrun). }
  apply bind_raise in Hrun as [Hrun|(_ & ? & [_ ->]%global_ok & Hrun)].
  { exact (raises_at_run g (method_exn g) _ _ _ _ (raises_at_global g _) Hrun). }
  apply bind_raise in Hrun as [[=]|(entries & self3 & Hreq & Hrun)].
  injection Hreq as <- <-. simpl in Hrun.
  do 3 (apply bind_raise in Hrun as [Hrun|(_ & ? & [_ ->]%global_ok & Hrun)];
        [exact (raises_at_run g (method_exn g) _ _ _ _ (raises_at_global g _)
                  Hrun)|]).
  apply bind_raise in Hrun as [Hrun|(solid' & ? & Hget & Hrun)].
  { unfold get_solid_compat in Hrun. simpl in Hrun. by rewrite Hsolid in Hrun. }
  unfold get_solid_compat in Hget. simpl in Hget. rewrite Hsolid in Hget.
  injection Hget as <- <-.
  apply (raises_at_run g (method_exn g) _ _ _ _) in Hrun; [exact Hrun|].
  repeat (apply (raises_at_bind g); [apply (raises_at_global g)|intros _]).
  cbv zeta.
  apply (raises_at_bind g); [apply (raises_at_ion_loop g)|intros ions].
  apply (raises_at_bind g); [apply (raises_at_chemsys_elements g)|intros elts].
  apply (raises_at_bind g); [apply (raises_at_H_and_O g)|intros HO].
  apply (raises_at_bind g); [apply (raises_at_solid_loop g)|intros pbx].
  apply (raises_at_ret g).
Qed.

End ExceptionFacts.

Section SolidFacts.
Import Py MpresterOcp.
Context `{PyFloat} {Composition Ion Compatibility : Type}.
Context `{!@Pymatgen _ Composition Ion Compatibility} `{!@MPRester _ Composition}.

#[local] Existing Instances M_ret M_bind.

Local Abbreviation M := (@M Compatibility).
Local Abbreviation Self := (@Self Compatibility).
Local Abbreviation ComputedEntry := (@ComputedEntry _ Composition).
Local Abbreviation PhaseDiagram := (@PhaseDiagram _ Composition).
Local Abbreviation PourbaixEntry := (@PourbaixEntry _ Composition Ion).
Local Abbreviation SolidCompatArg := (@SolidCompatArg Compatibility).
Local Abbreviation IonRecord := (@IonRecord _).

(** The solid entry made of an entry that passes the filter. *)
Local Abbreviation solid_entry ion_ref_pd entry :=
  (mkPourbaixEntry
     (OfSolid (ComputedEntry_new (composition entry)
                 (get_form_energy ion_ref_pd entry) (entry_id entry)))
     None).

(** The test of line 122. *)
Local Abbreviation kept extra_elts :=
  (λ entry : ComputedEntry,
     let entry_elts : gset Element :=
       list_to_set (comp_elements (composition entry)) in
     entry_elts ⊈ {[ "H"; "O" ]} ∧ extra_elts ∩ entry_elts = ∅).

(** The loop over a concatenation is the loop over the first list followed
    by the loop over the second. *)
Lemma solid_loop_app ion_ref_pd extra_elts (l1 l2 : list ComputedEntry)
    (pbx_entries : list PourbaixEntry) g (self : Self) :
  solid_loop ion_ref_pd extra_elts (l1 ++ l2) pbx_entries g self
  = (solid_loop ion_ref_pd extra_elts l1 pbx_entries
     ≫= solid_loop ion_ref_pd extra_elts l2) g self.
Proof.
  revert pbx_entries self. induction l1 as [|entry l1 IH]; intros pbx self.
  - done.
  - simpl. rewrite !bind_run.
    destruct (H_and_O g self) as [[HO|e] self1]; [|done].
    case_match; [|by rewrite IH, bind_run].
    rewrite !bind_run.
    destruct (global "ComputedEntry" g self1) as [[[]|e] self2]; [|done].
    rewrite !bind_run.
    destruct (global "PourbaixEntry" g self2) as [[[]|e] self3]; [|done].
    by rewrite IH, bind_run.
Qed.

(** A call that returns, and the same call with other additional
    entries: the two runs differ in the last loop only. *)
Lemma call_other_entries chemsys (arg : SolidCompatArg)
    (additional_entries additional_entries' : list ComputedEntry) g
    (self : Self) pbx_entries self' :
  get_pourbaix_entries_w_add_entries chemsys arg additional_entries g self
    = (Ok pbx_entries, self') →
  ∃ solid ions,
    solid_compat self' = Some solid ∧
    let ion_data := ion_data_of chemsys in
    let ion_ref_entries := ion_ref_entries_of solid ion_data in
    let ion_ref_pd := mkPhaseDiagram ion_ref_entries in
    solid_loop ion_ref_pd (extra_elts_of chemsys ion_data)
      (ion_ref_entries ++ additional_entries) ions g self'
      = (Ok pbx_entries, self') ∧
    get_pourbaix_entries_w_add_entries chemsys arg additional_entries' g self
    = solid_loop ion_ref_pd (extra_elts_of chemsys ion_data)
        (ion_ref_entries ++ additional_entries') ions g self'.
Proof.
  unfold get_pourbaix_entries_w_add_entries. intros Hrun.
  apply bind_ok in Hrun as ([] & self1 & Hset & Hrun).
  apply set_compatibility_ok in Hset as Hself1.
  destruct Hself1 as [[solid Hsolid] Hreq1].
  destruct self1 as [compat1 requests1]. simpl in Hsolid, Hreq1. subst.
  apply bind_ok in Hrun as (ion_data & self2 & Hreq & Hrun).
  pose proof Hreq as Hreq'. injection Hreq' as <- <-.
  apply bind_ok in Hrun as (comps & self3 & Hcomps & Hrun).
  pose proof Hcomps as [-> ->]%reference_compositions_ok.
  apply bind_ok in Hrun as ([] & self4 & Hitertools & Hrun).
  pose proof Hitertools as [_ ->]%global_ok.
  apply bind_ok in Hrun as (entries & self5 & Hentries & Hrun).
  pose proof Hentries as Hentries'. injection Hentries' as <- <-.
  apply bind_ok in Hrun as ([] & self6 & Hwarnings & Hrun).
  pose proof Hwarnings as [_ ->]%global_ok.
  apply bind_ok in Hrun as ([] & ? & Hagain1 & Hrun).
  pose proof Hagain1 as [_ ->]%global_ok.
  apply bind_ok in Hrun as ([] & self7 & Haqueous & Hrun).
  pose proof Haqueous as [_ ->]%global_ok.
  apply bind_ok in Hrun as (solid' & self8 & Hget & Hrun).
  pose proof Hget as Hget'.
  unfold get_solid_compat in Hget'. simpl in Hget'.
  injection Hget' as <- <-.
  apply bind_ok in Hrun as ([] & ? & Hagain2 & Hrun).
  pose proof Hagain2 as [_ ->]%global_ok.
  apply bind_ok in Hrun as ([] & ? & Hagain3 & Hrun).
  pose proof Hagain3 as [_ ->]%global_ok.
  apply bind_ok in Hrun as ([] & self9 & Hdiagram & Hrun).
  pose proof Hdiagram as [_ ->]%global_ok.
  apply bind_ok in Hrun as (ions & self10 & Hions & Hrun).
  pose proof Hions as [-> _]%ion_loop_run.
  apply bind_ok in Hrun as (elts & self11 & Helts & Hrun).
  pose proof Helts as [-> ->]%chemsys_elements_ok.
  apply bind_ok in Hrun as (HO & self12 & HHO & Hrun).
  pose proof HHO as [-> ->]%H_and_O_ok.
  apply bind_ok in Hrun as (pbx & self13 & Hsolids & Hrun).
  apply ret_ok in Hrun as [-> ->].
  pose proof Hsolids as [-> _]%solid_loop_ok.
  exists solid, ions. split; [done|]. cbv zeta.
  split; [exact Hsolids|].
  rewrite bind_run, Hset. cbv beta iota zeta.
  rewrite bind_run, Hreq. cbv beta iota zeta.
  rewrite bind_run, Hcomps. cbv beta iota zeta.
  rewrite bind_run, Hitertools. cbv beta iota zeta.
  rewrite bind_run, Hentries. cbv beta iota zeta.
  rewrite bind_run, Hwarnings. cbv beta iota zeta.
  rewrite bind_run, Hwarnings. cbv beta iota zeta.
  rewrite bind_run, Haqueous. cbv beta iota zeta.
  rewrite bind_run, Hget. cbv beta iota zeta.
  rewrite bind_run, Hwarnings. cbv beta iota zeta.
  rewrite bind_run, Hwarnings. cbv beta iota zeta.
  rewrite bind_run, Hdiagram. cbv beta iota zeta.
  rewrite bind_run, Hions. cbv beta iota zeta.
  rewrite bind_run, Helts. cbv beta iota zeta.
  rewrite bind_run, HHO. cbv beta iota zeta.
  rewrite bind_run.
  match goal with
  | |- context [match ?run with _ => _ end] =>
      match goal with |- _ = ?rhs => change rhs with run end;
      by destruct run as [[?|?] ?]
  end.
Qed.

(** X24: the additional entries only add to the end of the list.  When a
    call with additional entries returns, the call without them returns as
    well, and the list with them is the list without them followed by the
    solid entries of the additional entries that pass the test of the solid
    loop, with the formation energy of the phase diagram of the reference
    entries, which the additional entries are no part of. *)
Theorem additional_entries_appended chemsys (arg : SolidCompatArg)
    (additional_entries : list ComputedEntry) g (self : Self) pbx_entries self' :
  get_pourbaix_entries_w_add_entries chemsys arg additional_entries g self
    = (Ok pbx_entries, self') →
  ∃ solid pbx_entries0,
    solid_compat self' = Some solid ∧
    get_pourbaix_entries_w_add_entries chemsys arg [] g self
      = (Ok pbx_entries0, self') ∧
    let ion_data := ion_data_of chemsys in
    let ion_ref_pd := mkPhaseDiagram (ion_ref_entries_of solid ion_data) in
    pbx_entries = pbx_entries0 ++
      ((λ entry, solid_entry ion_ref_pd entry) <$>
         filter (kept (extra_elts_of chemsys ion_data)) additional_entries).
Proof.
  intros Hrun.
  destruct (call_other_entries chemsys arg additional_entries [] g self
              pbx_entries self' Hrun)
    as (solid & ions & Hsolid & Hsolids & Hnone).
  cbv zeta in Hsolids, Hnone.
  rewrite solid_loop_app in Hsolids.
  apply bind_ok in Hsolids as (pbx0 & self1 & Hfirst & Hsecond).
  pose proof Hfirst as [-> _]%solid_loop_ok.
  apply solid_loop_ok in Hsecond as [_ ->].
  exists solid, pbx0. split; [done|].
  split; [by rewrite Hnone, app_nil_r|done].
Qed.

(** X25: an entry, served or additional, that holds an element other than
    H and O and whose elements all are among those of the chemical system,
    H and O, is in the list a call returns, as a solid entry with its
    formation energy. *)
Theorem chemsys_solids_kept chemsys (arg : SolidCompatArg)
    (additional_entries : list ComputedEntry) g (self : Self) pbx_entries self' :
  get_pourbaix_entries_w_add_entries chemsys arg additional_entries g self
    = (Ok pbx_entries, self') →
  ∃ solid,
    solid_compat self' = Some solid ∧
    let ion_ref_entries := ion_ref_entries_of solid (ion_data_of chemsys) in
    ∀ entry,
      entry ∈ ion_ref_entries ++ additional_entries →
      (∃ x, x ∈ comp_elements (composition entry) ∧ x ≠ "H" ∧ x ≠ "O") →
      (∀ x, x ∈ comp_elements (composition entry) →
            x ∈ chemsys_symbols chemsys ∨ x = "H" ∨ x = "O") →
      solid_entry (mkPhaseDiagram ion_ref_entries) entry ∈ pbx_entries.
Proof.
  intros (solid & Hset & -> & ions & Hions & Hsolids)%call_returns.
  exists solid. split; [done|]. intros ion_ref_entries entry Hin Hother Hsys.
  apply solid_loop_ok in Hsolids as [_ ->].
  apply elem_of_app. right. apply list_elem_of_fmap. exists entry.
  split; [done|]. apply list_elem_of_filter. split; [|done]. split.
  - destruct Hother as (x & Hx & HH & HO). intros Hsub.
    specialize (Hsub x). rewrite elem_of_list_to_set in Hsub.
    apply Hsub in Hx.
    by apply elem_of_union in Hx as [?%elem_of_singleton|?%elem_of_singleton].
  - apply set_eq. intros x. rewrite elem_of_intersection, elem_of_list_to_set.
    split; [|by intros ?%not_elem_of_empty].
    intros [(_ & Hnot & HH & HO)%elem_of_extra_elts Hx].
    destruct (Hsys x Hx) as [?|[?|?]]; done.
Qed.


End SolidFacts.

(** ** Further worked examples

    The theorems of the last sections, each applied at one of the
    instances. *)

Section PaginationExamples.
Import Py GetEntriesUtils Fixture.

(** X1 at the bound 0 and the server that always has a further page. *)
Lemma get_all_entries_nonpositive_bound_witness :
  get_all_entries (H0:=endless) 5 (Pages 0) 100 []
  = (Some [iron 0],
     [[ ("limit", KwInt 100); ("offset", KwInt 0);
        ("filter", KwStr "stability <= 0.1 AND delta_e <= 0 AND ntypes < 4") ]]).
Proof.
  apply (get_all_entries_nonpositive_bound (H0:=endless) 5 0 100 []); lia.
Defined.

(** X2 at the server with two pages: the second page is the last. *)
Lemma get_all_entries_until_last_page_witness :
  get_all_entries (H0:=two_pages) 5 Inf 100 []
  = (Some [iron 0; iron 1],
     [ all_entries_kwargs 100 0; all_entries_kwargs 100 1 ]).
Proof.
  apply (get_all_entries_until_last_page (H0:=two_pages) 1 5 Inf 100).
  - lia.
  - intros i Hi. assert (i = 0%nat) as -> by lia. split; reflexivity.
  - left. reflexivity.
Defined.

(** X3 at the bound 1. *)
Lemma get_all_entries_bounded_witness :
  ∃ entries log,
    get_all_entries (H0:=endless) 5 (Pages 1) 100 [] = (Some entries, log) ∧
    (1 ≤ length log ≤ 1 + Z.to_nat 1)%nat.
Proof.
  apply (get_all_entries_bounded (H0:=endless) 5 1 100).
  vm_compute. lia.
Defined.

(** X4 at the server that always has a further page. *)
Lemma get_all_entries_never_returns_witness :
  (get_all_entries (H0:=endless) 7 Inf 100 []).1 = None.
Proof.
  apply (get_all_entries_never_returns (H0:=endless) 7 100 []).
  intros n kwargs. reflexivity.
Defined.

(** X5 at the server with two pages. *)
Lemma get_all_entries_data_witness :
  [iron 0; iron 1]
  = concat ((λ i : nat,
               resp_data
                 (oqmd_phases (QMPYRester:=two_pages) i
                    (all_entries_kwargs 100 (Z.of_nat i))))
              <$> seq 0 2).
Proof.
  apply (get_all_entries_data (H0:=two_pages) 5 Inf 100 [iron 0; iron 1]
           [ all_entries_kwargs 100 0; all_entries_kwargs 100 1 ]).
  reflexivity.
Defined.

End PaginationExamples.

Section OqmdExamples.
Import Py GetEntriesUtils Fixture.


(** X7 at the iron phase. *)
Lemma get_ase_object_one_atom_per_site_witness :
  lattice iron_structure = mkLattice cubic_cell ∧
  species iron_structure = ["Fe"] ∧
  length (coords iron_structure) = 1%nat.
Proof.
  apply (get_ase_object_one_atom_per_site (iron 3) (get_atoms iron_structure)
           (iron_done 3)).
  reflexivity.
Defined.

(** X8 at the iron phase: the second call returns the same atoms. *)
Lemma get_ase_object_again_witness :
  get_ase_object (iron 3) = Ok (get_atoms iron_structure, iron_done 3) ∧
  get_ase_object (iron_done 3) = Ok (get_atoms iron_structure, iron_done 3).
Proof.
  assert (get_ase_object (iron 3) = Ok (get_atoms iron_structure, iron_done 3))
    as Hrun by reflexivity.
  split; [exact Hrun|].
  exact (get_ase_object_again (iron 3) _ _ Hrun).
Defined.


(** X10 at a list whose second phase has the site string with two
    spaces. *)
Lemma write_data_raises_witness :
  write_data ([iron 1] ++ iron_two_spaces :: [iron 2]) "oqmd.db" ∅
  = Raise (ValueError "could not convert string to float: @").
Proof.
  apply (write_data_raises [iron 1] iron_two_spaces [iron 2] "oqmd.db" ∅).
  - repeat constructor.
  - reflexivity.
Defined.

(** A call of [write_data], from the run of its loop. *)
Lemma write_data_run (entries : list Entry) path (disk : Disk) db done :
  write_loop entries (default [] (disk !! path)) = Ok (db, done) →
  write_data entries path disk = Ok (<[path := db]> disk, done).
Proof. intros Hloop. unfold write_data, connect. by rewrite Hloop. Qed.

(** Two iron phases written to an empty disk. *)
Lemma two_irons_written :
  write_data [iron 1; iron 2] "oqmd.db" ∅
  = Ok (<["oqmd.db" := [iron_row "oqmd-1"; iron_row "oqmd-2"]]> ∅,
        [iron_done 1; iron_done 2]).
Proof.
  apply write_data_run. unfold Disk. rewrite lookup_empty. reflexivity.
Qed.

(** X11 at two iron phases and an empty disk. *)
Lemma write_data_appends_witness :
  let disk' : Disk :=
    <["oqmd.db" := [iron_row "oqmd-1"; iron_row "oqmd-2"]]> ∅ in
  (∀ other, other ≠ "oqmd.db" → disk' !! other = (∅ : Disk) !! other) ∧
  ∃ rows,
    disk' !! "oqmd.db" = Some (default [] ((∅ : Disk) !! "oqmd.db") ++ rows) ∧
    length rows = length [iron 1; iron 2].
Proof.
  exact (write_data_appends [iron 1; iron 2] "oqmd.db" ∅ _ _ two_irons_written).
Defined.

(** X12 at one iron phase written after another. *)
Lemma write_data_app_witness :
  write_data ([iron 1] ++ [iron 2]) "oqmd.db" ∅
  = Ok (<["oqmd.db" := [iron_row "oqmd-1"; iron_row "oqmd-2"]]>
          (<["oqmd.db" := [iron_row "oqmd-1"]]> ∅),
        [iron_done 1] ++ [iron_done 2]).
Proof.
  apply (write_data_app [iron 1] [iron 2] "oqmd.db" ∅
           (<["oqmd.db" := [iron_row "oqmd-1"]]> ∅)).
  - apply write_data_run. unfold Disk. rewrite lookup_empty. reflexivity.
  - apply write_data_run. unfold Disk. rewrite lookup_insert_eq. reflexivity.
Defined.

(** X13 at two iron phases and an empty disk. *)
Lemma write_data_updates_entries_witness :
  let disk' : Disk :=
    <["oqmd.db" := [iron_row "oqmd-1"; iron_row "oqmd-2"]]> ∅ in
  ∃ rows,
    disk' !! "oqmd.db" = Some (default [] ((∅ : Disk) !! "oqmd.db") ++ rows) ∧
    Forall3 (λ entry row entry',
               atoms_obj entry' = Some (row_atoms row) ∧
               pmg_struct entry' = Some (atoms_structure (row_atoms row)) ∧
               unit_cell entry' = unit_cell entry ∧
               sites entry' = sites entry ∧
               GetEntriesUtils.entry_id entry' = GetEntriesUtils.entry_id entry ∧
               delta_e entry' = delta_e entry)
      [iron 1; iron 2] rows [iron_done 1; iron_done 2].
Proof.
  exact (write_data_updates_entries [iron 1; iron 2] "oqmd.db" ∅ _ _
           two_irons_written).
Defined.

(** X14 at two iron phases with the ids 1 and 2. *)
Lemma write_data_bulk_ids_witness :
  let disk' : Disk :=
    <["oqmd.db" := [iron_row "oqmd-1"; iron_row "oqmd-2"]]> ∅ in
  ∃ rows,
    disk' !! "oqmd.db" = Some (default [] ((∅ : Disk) !! "oqmd.db") ++ rows) ∧
    NoDup (row_bulk_id <$> rows).
Proof.
  apply (write_data_bulk_ids [iron 1; iron 2] "oqmd.db" ∅ _
           [iron_done 1; iron_done 2]);
    [|exact two_irons_written].
  apply (bool_decide_unpack _). vm_compute. exact I.
Defined.

End OqmdExamples.

Section MaterialsProjectExamples.
Import Py MpresterOcp Fixture.

(** X15 at the sulfur system in the module's own namespace, where
    [itertools] is not bound: the scheme is stored and one request was
    sent. *)
Lemma call_leaves_requests_witness :
  (get_pourbaix_entries_w_add_entries (ChemStr "S")
     (ArgStr "MaterialsProject2020Compatibility") [] module_globals
     fresh_self).2
  = mkSelf (Some "MaterialsProject2020Compatibility()")
      [MakeRequest "/pourbaix_diagram/reference_data/S"].
Proof.
  destruct (call_leaves_requests (ChemStr "S")
              (ArgStr "MaterialsProject2020Compatibility") [] module_globals
              fresh_self)
    as (c & _ & Hc & _ & Hrun).
  - reflexivity.
  - right. left. reflexivity.
  - rewrite Hrun, (Hc eq_refl). reflexivity.
Defined.

(** X16 at the sulfur system in the patched namespace. *)
Lemma call_requests_witness :
  ∃ elts,
    requests sulfur_self
    = requests fresh_self ++
      [ MakeRequest ("/pourbaix_diagram/reference_data/" +:+
                     join "-" (chemsys_symbols (ChemStr "S")));
        GetEntriesInChemsys elts ["e_above_hull"] false ] ∧
    NoDup elts ∧
    ∀ x, x ∈ elts ↔
         x = "O" ∨ x = "H" ∨
         ∃ d, d ∈ ion_data_of (ChemStr "S") ∧
              x ∈ comp_elements (Composition_new (Reference_Solid d)).
Proof.
  exact (call_requests (ChemStr "S")
           (ArgStr "MaterialsProject2020Compatibility") [] patched_globals
           fresh_self sulfur_entries sulfur_self sulfur_run_returns).
Defined.

(** X17 at the chemical system ["Na-S"]. *)
Lemma string_chemsys_url_witness :
  ∃ more,
    requests
      (get_pourbaix_entries_w_add_entries (ChemStr "Na-S")
         (ArgStr "MaterialsProjectCompatibility") [] module_globals
         fresh_self).2
    = requests fresh_self ++
      MakeRequest ("/pourbaix_diagram/reference_data/" +:+ "Na-S") :: more.
Proof.
  apply (string_chemsys_url "Na-S" (ArgStr "MaterialsProjectCompatibility") []
           module_globals fresh_self).
  - reflexivity.
  - left. reflexivity.
Defined.

(** X18 at sodium and sulfur. *)
Lemma chemsys_forms_agree_witness :
  get_pourbaix_entries_w_add_entries (ChemStr (join "-" ["Na"; "S"]))
    (ArgStr "MaterialsProject2020Compatibility") []
  = get_pourbaix_entries_w_add_entries (ChemList ["Na"; "S"])
      (ArgStr "MaterialsProject2020Compatibility") [].
Proof.
  apply (chemsys_forms_agree ["Na"; "S"]
           (ArgStr "MaterialsProject2020Compatibility") []).
  - discriminate.
  - repeat constructor.
Defined.

(** X19 at the sulfate ion: of the two sodium sulfate entries the second is
    on the hull. *)
Lemma stable_ref_first_minimal_witness :
  ∃ before stable_ref after hull elt correction_factor,
    filter (λ e, reduced_formula (composition e) = Reference_Solid sulfate)
      sulfur_ref_entries = before ++ stable_ref :: after ∧
    data stable_ref !! "e_above_hull" = Some hull ∧
    (∀ e h, e ∈ before → data e !! "e_above_hull" = Some h →
            Q_lt hull h = true) ∧
    (∀ e h, e ∈ after → data e !! "e_above_hull" = Some h →
            Q_lt h hull = false) ∧
    Major_Elements sulfate !! 0%nat = Some elt ∧
    Q_div (amount (ion_composition (Ion_from_formula (Name sulfate))) elt)
          (amount (composition stable_ref) elt) = Some correction_factor ∧
    take 1 sulfur_entries = [] ++
      [ mkPourbaixEntry
          (OfIon
             (mkIonEntry (Ion_from_formula (Name sulfate))
                (Energy sulfate +
                 (get_form_energy sulfur_pd stable_ref
                  - Reference_solid_energy sulfate
                    * reduced_factor (composition stable_ref))
                 * correction_factor)%Q))
          (Some ("ion-" +:+ pretty 0%nat)) ].
Proof.
  apply (stable_ref_first_minimal sulfur_ref_entries sulfur_pd 0 sulfate []
           patched_globals fresh_self (take 1 sulfur_entries) fresh_self).
  reflexivity.
Defined.

(** X20 at the served entries followed by a sodium sulfate entry without
    data. *)
Lemma missing_hull_raises_witness :
  ion_body (sulfur_ref_entries ++ [sulfate_without_data]) sulfur_pd 0 sulfate []
    module_globals fresh_self
  = (Raise (KeyError "e_above_hull"), fresh_self).
Proof.
  apply (missing_hull_raises _ sulfur_pd 0 sulfate [] module_globals fresh_self
           sulfate_without_data).
  - apply (bool_decide_unpack _). vm_compute. exact I.
  - apply elem_of_app. right. left.
  - reflexivity.
  - reflexivity.
Defined.

(** X21 at a sulfate record without major elements. *)
Lemma empty_major_elements_raises_witness :
  ion_body sulfur_ref_entries sulfur_pd 0 sulfate_without_elements []
    module_globals fresh_self
  = (Raise IndexError, fresh_self).
Proof.
  apply (empty_major_elements_raises sulfur_ref_entries sulfur_pd 0
           sulfate_without_elements [] module_globals fresh_self).
  - apply (bool_decide_unpack _). vm_compute. exact I.
  - exists (solid "Na2SO4" "mp-1" 2%Q (-12)%Q). split; [left|reflexivity].
  - intros e He _. revert e He. apply Forall_forall.
    repeat constructor; by eexists.
  - reflexivity.
Defined.

(** X22 at a sulfate record whose major element, chlorine, is not in
    sodium sulfate. *)
Lemma absent_major_element_raises_witness :
  ion_body sulfur_ref_entries sulfur_pd 0 sulfate_of_chlorine [] module_globals
    fresh_self
  = (Raise ZeroDivisionError, fresh_self).
Proof.
  apply (absent_major_element_raises sulfur_ref_entries sulfur_pd 0
           sulfate_of_chlorine [] module_globals fresh_self "Cl").
  - apply (bool_decide_unpack _). vm_compute. exact I.
  - exists (solid "Na2SO4" "mp-1" 2%Q (-12)%Q). split; [left|reflexivity].
  - intros e He _. revert e He. apply Forall_forall.
    repeat constructor; by eexists.
  - reflexivity.
Defined.

(** X23 at the module's own namespace: the exception is the [NameError] of
    [itertools]. *)
Lemma call_exceptions_witness :
  (∃ name, NameError "itertools" = NameError name ∧ name ∉ module_globals) ∨
  NameError "itertools" = ValueError solid_compat_error ∨
  NameError "itertools"
  = ValueError "Reference solid not contained in entry list" ∨
  NameError "itertools" = KeyError "e_above_hull" ∨
  NameError "itertools" = IndexError ∨
  NameError "itertools" = ZeroDivisionError.
Proof.
  apply (call_exceptions (ChemStr "S")
           (ArgStr "MaterialsProject2020Compatibility") [] module_globals
           fresh_self).
  reflexivity.
Defined.

(** X24 at the sulfur system with one additional sulfur trioxide entry. *)
Lemma additional_entries_appended_witness :
  ∃ c pbx_entries0,
    solid_compat sulfur_self = Some c ∧
    get_pourbaix_entries_w_add_entries (ChemStr "S")
      (ArgStr "MaterialsProject2020Compatibility") [] patched_globals fresh_self
    = (Ok pbx_entries0, sulfur_self) ∧
    sulfur_entries ++ [mkPourbaixEntry (OfSolid sulfur_trioxide) None]
    = pbx_entries0 ++
      ((λ entry,
          mkPourbaixEntry
            (OfSolid
               (ComputedEntry_new (composition entry)
                  (get_form_energy
                     (mkPhaseDiagram
                        (ion_ref_entries_of c (ion_data_of (ChemStr "S"))))
                     entry)
                  (entry_id entry)))
            None) <$>
         filter (λ entry,
                   let entry_elts : gset Element :=
                     list_to_set (comp_elements (composition entry)) in
                   entry_elts ⊈ {[ "H"; "O" ]} ∧
                   extra_elts_of (ChemStr "S") (ion_data_of (ChemStr "S"))
                     ∩ entry_elts = ∅)
           [sulfur_trioxide]).
Proof.
  apply (additional_entries_appended (ChemStr "S")
           (ArgStr "MaterialsProject2020Compatibility") [sulfur_trioxide]
           patched_globals fresh_self).
  reflexivity.
Defined.

(** X25 at the sulfur system: the served sulfur trioxide entry is in the
    list. *)
Lemma chemsys_solids_kept_witness :
  mkPourbaixEntry
    (OfSolid (ComputedEntry_new (formula_of "SO3") (-5)%Q "mp-6")) None
  ∈ sulfur_entries.
Proof.
  destruct (chemsys_solids_kept (ChemStr "S")
              (ArgStr "MaterialsProject2020Compatibility") [] patched_globals
              fresh_self sulfur_entries sulfur_self sulfur_run_returns)
    as (c & _ & Hkept).
  apply (Hkept (solid "SO3" "mp-6" 0%Q (-5)%Q)).
  - apply elem_of_app. left. do 5 right. left.
  - exists "S". split; [left|split; discriminate].
  - intros x [->|[->|[]%elem_of_nil]%elem_of_cons]%elem_of_cons.
    + left. left.
    + right. right. reflexivity.
Defined.


End MaterialsProjectExamples.
